(** * Azure Event Hubs client: the data path and the partition pump

    A shallow embedding of [azure/eventhub/__init__.py] (Offset, EventData,
    Sender, Receiver) and of [azure/eventprocessorhost/partition_pump.py]
    (PartitionPump), followed by the properties of these definitions.

    Conventions of the embedding.
    - Python [bytes] are Rocq [string]s: a Rocq character is one octet.
    - Python [str] is a list of Unicode code points ([pystr]); [encode_utf8]
      is the UTF-8 encoder of [str.encode('utf-8')].
    - A Python call either returns a value or raises: [Result].
    - Methods that mutate [self] or call out to user code are computations
      in the monad [M]: they take the state and give a [Result] together with
      the state as it is when the call ends, also when it ends by a raise.
    - A generator is a value that holds where its body stands; [next] runs
      the body to the next [yield]. *)

From Stdlib Require Import ZArith NArith Ascii String List DecimalString.
From stdpp Require Import base option list strings gmap.

Local Open Scope string_scope.
Local Open Scope list_scope.

(** ** Python values shared by both files *)

(** [bytes]: a sequence of octets. *)
Definition bytes := string.

(** [str]: a sequence of Unicode code points. *)
Definition pystr := list N.

(** A [str] literal of the source, all of whose characters are ASCII. *)
Definition lit (s : string) : pystr := map N_of_ascii (list_ascii_of_string s).

(** Values found in message annotations and tracked as offsets. *)
Inductive PyVal :=
| PyNone
| PyInt (n : Z)
| PyStr (s : pystr)
| PyBytes (b : bytes).

(** Modelled from the spec: [uamqp.constants.MessageSendResult] is not part
    of the sources; the data model gives a delivery outcome the results
    Ok and Failed. *)
Inductive MessageSendResult := Ok | Failed.

(** The exceptions that occur.  [UserError] stands for whatever an external
    collaborator (processor hook, callback, transport, lease manager) raises;
    all of them derive from [Exception]. *)
Inductive Exn :=
| AttributeError (attr : string)
| NameError (name : string)
| TypeError
| UnicodeEncodeError
| EventHubError (outcome : option MessageSendResult) (condition : PyVal)
| UserError (tag : nat).

Inductive Result (A : Type) :=
| Return (a : A)
| Raise (e : Exn).
Arguments Return {A} a.
Arguments Raise {A} e.

#[global] Instance PyVal_eq_dec : EqDecision PyVal.
Proof. solve_decision. Defined.
#[global] Instance MessageSendResult_eq_dec : EqDecision MessageSendResult.
Proof. solve_decision. Defined.
#[global] Instance Exn_eq_dec : EqDecision Exn.
Proof. solve_decision. Defined.

(** ** Computations on a mutable state

    [M S A]: a call that works on a state [S] and returns an [A] or raises.
    The state that comes back is the one the call leaves behind; a raise
    does not undo the assignments made before it. *)

Definition M (S A : Type) : Type := S -> Result A * S.

Definition ret {S A} (a : A) : M S A := fun s => (Return a, s).

Definition raise {S A} (e : Exn) : M S A := fun s => (Raise e, s).

Definition bind {S A B} (m : M S A) (k : A -> M S B) : M S B :=
  fun s =>
    match m s with
    | (Return a, s') => k a s'
    | (Raise e, s') => (Raise e, s')
    end.

(** [try: body  except Exception as err: handler err]. *)
Definition try_except {S A} (body : M S A) (handler : Exn -> M S A) : M S A :=
  fun s =>
    match body s with
    | (Return a, s') => (Return a, s')
    | (Raise e, s') => handler e s'
    end.

Definition get {S} : M S S := fun s => (Return s, s).

Definition modify {S} (f : S -> S) : M S unit := fun s => (Return tt, f s).

Declare Scope py_scope.
Delimit Scope py_scope with py.
Notation "'let*' x ':=' m 'in' k" := (bind m (fun x => k))
  (at level 10, x name, m at level 100, k at level 200) : py_scope.
Notation "m ';;;' k" := (bind m (fun _ => k))
  (at level 100, k at level 200, right associativity) : py_scope.

(** ** azure/eventhub/__init__.py *)

(** *** str.encode('utf-8') *)

Module Utf8.

Definition octet (n : N) : ascii := ascii_of_N n.

(** The continuation octet carrying the six bits of [c] from bit [sh]. *)
Definition cont (c : N) (sh : N) : ascii :=
  octet (N.lor 128 (N.land (N.shiftr c sh) 63)).

Definition encode_code_point (c : N) : Result (list ascii) :=
  if (c <? 128)%N then Return [octet c]
  else if (c <? 2048)%N then
    Return [octet (N.lor 192 (N.shiftr c 6)); cont c 0]
  else if (c <? 65536)%N then
    if ((55296 <=? c) && (c <? 57344))%N then Raise UnicodeEncodeError
    else Return [octet (N.lor 224 (N.shiftr c 12)); cont c 6; cont c 0]
  else if (c <? 1114112)%N then
    Return [octet (N.lor 240 (N.shiftr c 18)); cont c 12; cont c 6; cont c 0]
  else Raise UnicodeEncodeError.

Fixpoint encode_chars (s : pystr) : Result (list ascii) :=
  match s with
  | [] => Return []
  | c :: s' =>
      match encode_code_point c with
      | Raise e => Raise e
      | Return bs =>
          match encode_chars s' with
          | Raise e => Raise e
          | Return rest => Return (bs ++ rest)
          end
      end
  end.

Definition encode_utf8 (s : pystr) : Result bytes :=
  match encode_chars s with
  | Raise e => Raise e
  | Return bs => Return (string_of_list_ascii bs)
  end.

End Utf8.

(** ['{}'.format(n)] for an [int]: its decimal numeral. *)
Definition format_int (n : Z) : pystr := lit (NilZero.string_of_int (Z.to_int n)).

(** *** class Offset *)

Module Offset.

(** [value] is documented as [datetime], [int] or [str]; a [datetime] is
    kept as its microseconds since the epoch. *)
Inductive OffsetValue :=
| OffDatetime (micros : Z)
| OffInt (n : Z)
| OffStr (s : pystr).

Record t := mk { value : OffsetValue; inclusive : bool }.

(** [Offset(value, inclusive=False)]. *)
Definition init (v : OffsetValue) (incl : option bool) : t :=
  mk v (default false incl).

(** [Offset.selector].  In the [datetime] branch the name [timestamp] is
    bound nowhere in the module, so evaluating the call raises [NameError]
    before anything is formatted. *)
Definition selector (self : t) : Result bytes :=
  match value self with
  | OffDatetime _ => Raise (NameError "timestamp")
  | OffInt n =>
      Utf8.encode_utf8 (lit "amqp.annotation.x-opt-enqueued-time > '" ++ format_int n ++ lit "'")
  | OffStr s =>
      let operator := if inclusive self then lit ">=" else lit ">" in
      Utf8.encode_utf8 (lit "amqp.annotation.x-opt-offset " ++ operator ++ lit " '" ++ s ++ lit "'")
  end.

End Offset.

(** *** class EventData *)

(** The transport message that [EventData] wraps.  [uamqp.Message] is a
    class of the transport library; what the wrapper reads of it are the two
    dictionaries and the body. *)
Record Message := mkMessage {
  message_annotations : gmap bytes PyVal;
  application_properties : gmap bytes PyVal;
  data : bytes
}.

(** [d.get(key, None)]. *)
Definition dict_get (d : gmap bytes PyVal) (key : bytes) : PyVal :=
  default PyNone (d !! key).

Module EventData.

Definition PROP_SEQ_NUMBER : bytes := "x-opt-sequence-number".
Definition PROP_OFFSET : bytes := "x-opt-offset".
Definition PROP_PARTITION_KEY : bytes := "x-opt-partition-key".

(** [message] is an attribute that [__init__] sets only when it is given a
    batch or a body. *)
Record t := mk {
  message : option Message;
  _annotations : gmap bytes PyVal;
  _properties : gmap bytes PyVal
}.

(** [EventData(body)]; an absent or empty body leaves [message] unset. *)
Definition init (body : option bytes) : t :=
  let message :=
    match body with
    | Some b => if decide (b = "") then None else Some (mkMessage ∅ ∅ b)
    | None => None
    end in
  mk message ∅ ∅.

Definition sequence_number (self : t) : PyVal := dict_get (_annotations self) PROP_SEQ_NUMBER.

Definition offset (self : t) : PyVal := dict_get (_annotations self) PROP_OFFSET.

Definition partition_key (self : t) : PyVal := dict_get (_annotations self) PROP_PARTITION_KEY.

Definition properties (self : t) : gmap bytes PyVal := _properties self.

Definition create (message : Message) : t :=
  let event_data := init None in
  let event_data := mk (Some message) (_annotations event_data) (_properties event_data) in
  let event_data := mk (EventData.message event_data) (message_annotations message) (_properties event_data) in
  mk (EventData.message event_data) (_annotations event_data) (application_properties message).

End EventData.

(** *** class Sender *)

Module Sender.

(** [_outcome] and [_condition] start as [None]. *)
Record t := mk {
  _outcome : option MessageSendResult;
  _condition : PyVal
}.

Definition init : t := mk None PyNone.

Definition _on_outcome (outcome : MessageSendResult) (condition : PyVal) : M t unit :=
  modify (fun _ => mk (Some outcome) condition).

Definition _error (outcome : option MessageSendResult) (condition : PyVal) : option Exn :=
  if decide (outcome = Some Ok) then None else Some (EventHubError outcome condition).

(** What one call of the transport's blocking [send_message] does, as far
    as the sender sees it: the calls it makes to the message's
    [on_send_complete] hook, in order, and then whether it returns or
    raises. *)
Record Submit := mkSubmit {
  completions : list (MessageSendResult * PyVal);
  submit_raises : option Exn
}.

Fixpoint run_completions (cs : list (MessageSendResult * PyVal)) : M t unit :=
  match cs with
  | [] => ret tt
  | (o, c) :: cs' => (_on_outcome o c ;;; run_completions cs')%py
  end.

(** [self._handler.send_message(message)] with the hook set to
    [self._on_outcome]. *)
Definition send_message (transport : Message -> Submit) (message : Message) : M t unit :=
  (run_completions (completions (transport message)) ;;;
   match submit_raises (transport message) with
   | Some e => raise e
   | None => ret tt
   end)%py.

(** [raise v] where [v] may be [None]. *)
Definition raise_value {S} (v : option Exn) : M S unit :=
  match v with
  | Some e => raise e
  | None => raise TypeError
  end.

Definition send (transport : Message -> Submit) (event_data : EventData.t) : M t unit :=
  match EventData.message event_data with
  | None => raise (AttributeError "message")
  | Some message =>
      (send_message transport message ;;;
       let* self := get in
       if decide (_outcome self ≠ Some Ok)
       then raise_value (_error (_outcome self) (_condition self))
       else ret tt)%py
  end.

End Sender.

(** ['{}'.format(b)] for a [bytes] value: [str(b)], which is [repr(b)].
    The quote is the single quote unless [b] holds one and no double quote;
    the quote and the backslash are escaped, tab, newline and carriage return
    are written with their letters, other octets outside the printable ASCII
    range as [\xhh]. *)
Definition hex_digit (d : N) : N := if (d <? 10)%N then (48 + d)%N else (87 + d)%N.

Definition repr_quote (b : bytes) : N :=
  let octets := map N_of_ascii (list_ascii_of_string b) in
  if existsb (N.eqb 39) octets && negb (existsb (N.eqb 34) octets) then 34%N else 39%N.

Definition repr_octet (quote : N) (c : N) : pystr :=
  if ((c =? quote) || (c =? 92))%N then [92; c]%N
  else if (c =? 9)%N then [92; 116]%N
  else if (c =? 10)%N then [92; 110]%N
  else if (c =? 13)%N then [92; 114]%N
  else if ((c <? 32) || (127 <=? c))%N then
    [92; 120; hex_digit (N.shiftr c 4); hex_digit (N.land c 15)]%N
  else [c].

Definition repr_bytes (b : bytes) : pystr :=
  let quote := repr_quote b in
  [98%N; quote]
  ++ concat (map (repr_octet quote) (map N_of_ascii (list_ascii_of_string b)))
  ++ [quote].

(** *** class Receiver *)

Module Receiver.

(** A user callback of [receive]: given the events it was called with
    before and the event of this call, it returns ([None]) or raises. *)
Definition Callback := list EventData.t -> EventData.t -> option Exn.

Record t := mk {
  offset : PyVal;
  _callback : option Callback;
  prefetch : Z;
  epoch : option Z;
  delivered : Z
}.

(** [Receiver(client, source, prefetch=300, epoch=None)]. *)
Definition init (prefetch : option Z) (epoch : option Z) : t :=
  mk PyNone None (default 300%Z prefetch) epoch 0.

(** The receiver together with the record of the calls made to the user
    callback. *)
Record State := mkState { self : t; called : list EventData.t }.

Definition set_delivered (n : Z) (r : t) : t :=
  mk (offset r) (_callback r) (prefetch r) (epoch r) n.
Definition set_offset (v : PyVal) (r : t) : t :=
  mk v (_callback r) (prefetch r) (epoch r) (delivered r).
Definition set_callback (cb : option Callback) (r : t) : t :=
  mk (offset r) cb (prefetch r) (epoch r) (delivered r).

Definition on_self (f : t -> t) : M State unit :=
  modify (fun s => mkState (f (self s)) (called s)).

(** Calling the user callback: the call is recorded, then it returns or
    raises. *)
Definition call_callback (cb : Callback) (event_data : EventData.t) : M State unit :=
  fun s =>
    let s' := mkState (self s) (called s ++ [event_data]) in
    match cb (called s) event_data with
    | None => (Return tt, s')
    | Some e => (Raise e, s')
    end.

Definition on_message (event : Message) : M State EventData.t :=
  (let* s := get in
   on_self (set_delivered (delivered (self s) + 1)) ;;;
   let event_data := EventData.create event in
   match _callback (self s) with
   | Some cb => call_callback cb event_data
   | None => ret tt
   end ;;;
   on_self (set_offset (EventData.offset event_data)) ;;;
   ret event_data)%py.

(** The transport's [receive_message_batch(on_message_received=...)]: every
    message of the fetch goes through the hook, and the fetch hands back
    what the hook returned. *)
Fixpoint receive_message_batch (on_message_received : Message -> M State EventData.t)
    (fetched : list Message) : M State (list EventData.t) :=
  match fetched with
  | [] => ret []
  | m :: ms =>
      (let* e := on_message_received m in
       let* es := receive_message_batch on_message_received ms in
       ret (e :: es))%py
  end.

(** [receive(max_batch_size, callback, timeout)] with a batch size: one
    fetch, whose events are then yielded in order.  [fetched] is what the
    transport received for that fetch. *)
Definition receive (callback : option Callback) (fetched : list Message)
  : M State (list EventData.t) :=
  (on_self (set_callback callback) ;;;
   receive_message_batch on_message fetched)%py.

(** [selector(default)].  [Offset(self.offset)] holds the tracked offset as
    it was found in the annotations: an [int] takes the [int] branch of
    [Offset.selector], a [str] the last branch, and so does a [bytes] value,
    which that branch formats by its [str()].  The call gives back a filter
    or the fallback itself. *)
Definition selector (default : Offset.t) (self : t) : Result (bytes + Offset.t) :=
  let filter_of v :=
    match Offset.selector (Offset.init v None) with
    | Return b => Return (inl b)
    | Raise e => Raise e
    end in
  match offset self with
  | PyNone => Return (inr default)
  | PyInt n => filter_of (Offset.OffInt n)
  | PyStr s => filter_of (Offset.OffStr s)
  | PyBytes b => filter_of (Offset.OffStr (repr_bytes b))
  end.

(** *** The generator that [receive] returns

    [receive] is a generator function: the call itself runs none of its
    body, and each [next] runs the body up to the next [yield]. *)

(** The numbers of [receive]: its [timeout] argument and the readings of
    [time.time()].  Their arithmetic is that of Python's [int] and [float]
    and is taken as it comes; [to_int] is [int(x)], which raises for an
    infinity and for a NaN. *)
Record Numbers := mkNumbers {
  number : Type;
  of_int : Z -> number;
  nonzero : number -> bool;
  plus : number -> number -> number;
  minus : number -> number -> number;
  times : number -> number -> number;
  less : number -> number -> bool;
  to_int : number -> Result Z
}.

(** What one call of the transport's [receive_message_batch] does, as far
    as the receiver sees it: the messages it passes to the hook, in order,
    and then whether it returns, handing back what the hook returned, or
    raises. *)
Record Fetched := mkFetched {
  received : list Message;
  fetch_raises : option Exn
}.

(** What has been asked of the receiver's surroundings: a fetch of the
    transport, with its arguments, or the time. *)
Inductive Asked (N : Numbers) :=
| Fetch (max_batch_size : option Z) (timeout : number N)
| Clock.
Arguments Fetch {N} max_batch_size timeout.
Arguments Clock {N}.

(** How the surroundings answer, given what they were asked before. *)
Record Surroundings (N : Numbers) := mkSurroundings {
  incoming : list (Asked N) -> option Z -> number N -> Fetched;
  time_time : list (Asked N) -> number N
}.
Arguments incoming {N} _ _ _ _.
Arguments time_time {N} _ _.

(** The receiver with the record of its callback, and what was asked of
    the surroundings so far. *)
Record World (N : Numbers) := mkWorld {
  receiver : State;
  asked : list (Asked N)
}.
Arguments mkWorld {N} receiver asked.
Arguments receiver {N} _.
Arguments asked {N} _.

(** A generator object: not started, holding the arguments of the call;
    suspended at the [yield] of the batch branch or at the [yield] inside
    the loop, holding the local variables that are still read and the events
    of [message_iter] not yet yielded; or finished. *)
Inductive Generator (N : Numbers) :=
| Created (max_batch_size : option Z) (callback : option Callback)
    (timeout : option (number N))
| InBatch (message_iter : list EventData.t)
| InLoop (receive_timeout : option (number N)) (timeout_ms : number N)
    (message_iter : list EventData.t)
| Finished.
Arguments Created {N} max_batch_size callback timeout.
Arguments InBatch {N} message_iter.
Arguments InLoop {N} receive_timeout timeout_ms message_iter.
Arguments Finished {N}.

(** [receive(max_batch_size, callback, timeout)], the call. *)
Definition receive_generator {N : Numbers} (max_batch_size : option Z)
    (callback : option Callback) (timeout : option (number N)) : Generator N :=
  Created max_batch_size callback timeout.

Section Generator.

Variable N : Numbers.
Variable surroundings : Surroundings N.

(** A method of the receiver, run in the world. *)
Definition in_receiver {A} (m : M State A) : M (World N) A :=
  fun w => let (r, s') := m (receiver w) in (r, mkWorld s' (asked w)).

(** [time.time()]. *)
Definition now : M (World N) (number N) :=
  fun w => (Return (time_time surroundings (asked w)),
            mkWorld (receiver w) (asked w ++ [Clock])).

(** [self._handler.receive_message_batch(max_batch_size=...,
    on_message_received=self.on_message, timeout=...)]. *)
Definition fetch (max_batch_size : option Z) (timeout : number N)
  : M (World N) (list EventData.t) :=
  (let* w := get in
   let fetched := incoming surroundings (asked w) max_batch_size timeout in
   modify (fun w => mkWorld (receiver w) (asked w ++ [Fetch max_batch_size timeout])) ;;;
   let* message_iter := in_receiver (receive_message_batch on_message (received fetched)) in
   match fetch_raises fetched with
   | Some e => raise e
   | None => ret message_iter
   end)%py.

(** Truth of an optional number and of an optional batch size: neither
    [None] nor zero. *)
Definition number_truth (x : option (number N)) : bool :=
  match x with
  | Some v => nonzero N v
  | None => false
  end.

Definition size_truth (n : option Z) : bool :=
  match n with
  | Some v => negb (v =? 0)%Z
  | None => false
  end.

(** [1000 * timeout if timeout else 0]. *)
Definition milliseconds (timeout : option (number N)) : number N :=
  match timeout with
  | Some t => if nonzero N t then times N (of_int N 1000) t else of_int N 0
  | None => of_int N 0
  end.

(** [time.time() + timeout if timeout else None]. *)
Definition deadline (timeout : option (number N)) : M (World N) (option (number N)) :=
  match timeout with
  | Some t => if nonzero N t then (let* n := now in ret (Some (plus N n t)))%py else ret None
  | None => ret None
  end.

(** [not receive_timeout or time.time() < receive_timeout]. *)
Definition in_time (receive_timeout : option (number N)) : M (World N) bool :=
  match receive_timeout with
  | Some t => if nonzero N t then (let* n := now in ret (less N n t))%py else ret true
  | None => ret true
  end.

(** [timeout_ms] after
    [if receive_timeout: timeout_ms = int((receive_timeout - time.time()) * 1000)]. *)
Definition remaining (receive_timeout : option (number N)) (timeout_ms : number N)
  : M (World N) (number N) :=
  match receive_timeout with
  | Some t =>
      if nonzero N t then
        (let* n := now in
         match to_int N (times N (minus N t n) (of_int N 1000)) with
         | Return z => ret (of_int N z)
         | Raise e => raise e
         end)%py
      else ret timeout_ms
  | None => ret timeout_ms
  end.

(** The test of the [while] loop on a [message_iter] just fetched, up to
    the first [yield] of its body. *)
Definition loop_test (receive_timeout : option (number N)) (timeout_ms : number N)
    (message_iter : list EventData.t) : M (World N) (Generator N * option EventData.t) :=
  match message_iter with
  | [] => ret (Finished, None)
  | event_data :: rest =>
      (let* go_on := in_time receive_timeout in
       if (go_on : bool)
       then ret (InLoop receive_timeout timeout_ms rest, Some event_data)
       else ret (Finished, None))%py
  end.

(** The body of [receive] from where the generator stands to its next
    [yield], whose value is given with the generator as it is then, or to its
    end, where no value is given. *)
Definition resume (g : Generator N) : M (World N) (Generator N * option EventData.t) :=
  match g with
  | Created max_batch_size callback timeout =>
      let timeout_ms := milliseconds timeout in
      (in_receiver (on_self (set_callback callback)) ;;;
       if size_truth max_batch_size then
         let* message_iter := fetch max_batch_size timeout_ms in
         match message_iter with
         | event_data :: rest => ret (InBatch rest, Some event_data)
         | [] => ret (Finished, None)
         end
       else
         let* receive_timeout := deadline timeout in
         let* message_iter := fetch None timeout_ms in
         loop_test receive_timeout timeout_ms message_iter)%py
  | InBatch (event_data :: rest) => ret (InBatch rest, Some event_data)
  | InBatch [] => ret (Finished, None)
  | InLoop receive_timeout timeout_ms (event_data :: rest) =>
      ret (InLoop receive_timeout timeout_ms rest, Some event_data)
  | InLoop receive_timeout timeout_ms [] =>
      (let* timeout_ms := remaining receive_timeout timeout_ms in
       let* message_iter := fetch None timeout_ms in
       loop_test receive_timeout timeout_ms message_iter)%py
  | Finished => ret (Finished, None)
  end.

(** [next(generator)]: the event yielded, or [None] where Python raises
    StopIteration; a generator whose body raised is finished. *)
Definition next (g : Generator N) (w : World N)
  : Result (option EventData.t) * Generator N * World N :=
  match resume g w with
  | (Return (g', yielded), w') => (Return yielded, g', w')
  | (Raise e, w') => (Raise e, Finished, w')
  end.

(** A caller that takes events from the generator, [n] at most, and stops
    when the generator ends or raises: the events it was given, in order. *)
Fixpoint take_events (n : nat) (g : Generator N) (w : World N)
  : list EventData.t * Generator N * World N :=
  match n with
  | O => ([], g, w)
  | S n' =>
      match next g w with
      | (Return (Some event_data), g', w') =>
          let '(events, g'', w'') := take_events n' g' w' in
          (event_data :: events, g'', w'')
      | (_, g', w') => ([], g', w')
      end
  end.

End Generator.

(** The events a suspended generator holds and has not yet yielded. *)
Definition pending {N : Numbers} (g : Generator N) : list EventData.t :=
  match g with
  | InBatch message_iter | InLoop _ _ message_iter => message_iter
  | Created _ _ _ | Finished => []
  end.

(** The receiver of [s] with [callback] in the place of its callback, as
    the assignment [self._callback = callback] leaves it. *)
Definition with_callback (callback : option Callback) (s : State) : State :=
  mkState (set_callback callback (self s)) (called s).

(** The generator [g] has been started. *)
Definition started {N : Numbers} (g : Generator N) : Prop :=
  match g with
  | Created _ _ _ => False
  | _ => True
  end.

(** Since the receiver stood at [start], the events [yielded] and the ones
    the generator still holds are what [on_message] returned for the
    messages fetched since, one after the other, and the receiver stands
    where the last of these runs left it. *)
Definition handled_since {N : Numbers} (start : State) (yielded : list EventData.t)
    (g : Generator N) (w : World N) : Prop :=
  exists fetched,
    receive_message_batch on_message fetched start = (Return (yielded ++ pending g), receiver w).

(** The computation [m] leaves the receiver as it is. *)
Definition keeps_receiver {N : Numbers} {A} (m : M (World N) A) : Prop :=
  forall w, receiver (snd (m w)) = receiver w.

End Receiver.

(** *** Connection strings and addresses *)

(** A call that returns or raises [ValueError] with a message. *)
Inductive Checked (A : Type) :=
| Fine (a : A)
| ValueError (message : string).
Arguments Fine {A} a.
Arguments ValueError {A} message.

(** [s.split(sep)] for a separator of one character: the pieces between
    the separators, of which there is always at least one. *)
Fixpoint split (sep : N) (s : pystr) : list pystr :=
  match s with
  | [] => [[]]
  | c :: s' =>
      if (c =? sep)%N then [] :: split sep s'
      else match split sep s' with
           | w :: ws => (c :: w) :: ws
           | [] => [[c]]
           end
  end.

(** [s.partition(sep)] for a separator of one character: what is before
    the first separator, the separator if there is one, and what is after. *)
Fixpoint partition (sep : N) (s : pystr) : pystr * pystr * pystr :=
  match s with
  | [] => ([], [], [])
  | c :: s' =>
      if (c =? sep)%N then ([], [sep], s')
      else let '(before, found, after) := partition sep s' in (c :: before, found, after)
  end.

(** [s.rstrip(c)] for one character: [s] without its trailing [c]s. *)
Fixpoint rstrip (c : N) (s : pystr) : pystr :=
  match s with
  | [] => []
  | x :: s' =>
      match rstrip c s' with
      | [] => if (x =? c)%N then [] else [x]
      | r => x :: r
      end
  end.

(** Truth of an optional [str]: neither [None] nor empty. *)
Definition truthy (o : option pystr) : bool :=
  match o with
  | Some (_ :: _) => true
  | _ => false
  end.

(** [a or b] on optional strings. *)
Definition or_else (a b : option pystr) : option pystr := if truthy a then a else b.

(** ['{}'.format(o)] for an optional [str]. *)
Definition format_optional (o : option pystr) : pystr :=
  match o with
  | Some s => s
  | None => lit "None"
  end.

Definition ascii_lower (c : N) : N :=
  if ((65 <=? c) && (c <=? 90))%N then (c + 32)%N else c.

(** What [urlparse] gives of an address, as far as the client reads it. *)
Record Url := mkUrl {
  url_username : option pystr;
  url_password : option pystr;
  hostname : option pystr;
  path : pystr
}.

Section ConnectionStrings.

(** The parts of the Python library that the module calls and that are
    tables or parsers of their own: [str.lower] on a string that holds a
    character outside ASCII, [urlparse] and [unquote_plus].  [urlparse]
    refuses some addresses with ValueError (an unclosed bracket in the host,
    for one). *)
Variable unicode_lower : pystr -> pystr.
Variable urlparse : pystr -> Checked Url.
Variable unquote_plus : pystr -> pystr.

(** [s.lower()]. *)
Definition lower (s : pystr) : pystr :=
  if forallb (fun c => (c <? 128)%N) s then map ascii_lower s else unicode_lower s.

(** The four variables of the loop of [_parse_conn_str]. *)
Record Parts := mkParts {
  endpoint : option pystr;
  shared_access_key_name : option pystr;
  shared_access_key : option pystr;
  entity_path : option pystr
}.

(** One turn of the loop. *)
Definition parse_element (parts : Parts) (element : pystr) : Parts :=
  let '(key, _, value) := partition 61 element in
  if decide (lower key = lit "endpoint") then
    mkParts (Some (rstrip 47 value)) (shared_access_key_name parts)
      (shared_access_key parts) (entity_path parts)
  else if decide (lower key = lit "sharedaccesskeyname") then
    mkParts (endpoint parts) (Some value) (shared_access_key parts) (entity_path parts)
  else if decide (lower key = lit "sharedaccesskey") then
    mkParts (endpoint parts) (shared_access_key_name parts) (Some value) (entity_path parts)
  else if decide (lower key = lit "entitypath") then
    mkParts (endpoint parts) (shared_access_key_name parts) (shared_access_key parts)
      (Some value)
  else parts.

Definition _parse_conn_str (conn_str : pystr) : Checked Parts :=
  let parts := fold_left parse_element (split 59 conn_str) (mkParts None None None None) in
  if truthy (endpoint parts) && truthy (shared_access_key_name parts)
     && truthy (shared_access_key parts)
  then Fine parts
  else ValueError "Invalid connection string".

(** [_build_uri]; the [print] of the path is left out. *)
Definition _build_uri (address : pystr) (entity : option pystr) : Checked pystr :=
  match urlparse address with
  | ValueError m => ValueError m
  | Fine parsed =>
      match path parsed with
      | _ :: _ => Fine address
      | [] =>
          if truthy entity then Fine (address ++ lit "/" ++ format_optional entity)
          else ValueError "No EventHub specified"
      end
  end.

(** The connection string has an element whose key, lowered, is [name],
    and whose value is [value]. *)
Definition provides (conn_str : pystr) (name : string) (value : pystr) : Prop :=
  exists element key found,
    element ∈ split 59 conn_str /\
    partition 61 element = (key, found, value) /\
    lower key = lit name.

(** Where the parts held in the variables of the loop come from. *)
Definition sourced (conn_str : pystr) (parts : Parts) : Prop :=
  (forall v, endpoint parts = Some v ->
     exists w, v = rstrip 47 w /\ provides conn_str "endpoint" w) /\
  (forall v, shared_access_key_name parts = Some v ->
     provides conn_str "sharedaccesskeyname" v) /\
  (forall v, shared_access_key parts = Some v -> provides conn_str "sharedaccesskey" v) /\
  (forall v, entity_path parts = Some v -> provides conn_str "entitypath" v).

End ConnectionStrings.

(** *** class EventHubClient *)

Module Client.

(** What [SASTokenAuth.from_shared_access_key] is made from. *)
Record Auth := mkAuth {
  auth_uri : pystr;
  auth_username : pystr;
  auth_password : pystr
}.

(** The source a receive handler is given: a [Source] object with the
    filter set on it, if any, or the address itself. *)
Inductive SourceArg :=
| SourceObject (address : pystr) (filter : option bytes)
| SourceAddress (address : pystr).

(** The transport clients that [Sender] and [Receiver] construct, by the
    arguments of their construction.  [msg_timeout] is [Sender.TIMEOUT], in
    seconds; [timeout] is [Receiver.timeout]; [link_properties] holds the
    value under the epoch symbol, if there is one. *)
Inductive HandlerSpec :=
| SendClient (target : pystr) (auth : Auth) (debug : bool) (msg_timeout : Z)
| ReceiveClient (source : SourceArg) (auth : Auth) (debug : bool) (prefetch : Z)
    (link_properties : option Z) (timeout : Z).

(** A handler object: what it was made from, and which one it is among the
    handlers the client has registered. *)
Record Handler := mkHandler {
  handler_id : nat;
  handler_spec : HandlerSpec
}.

Definition ConnectionRef := nat.

Record t := mk {
  container_id : pystr;
  address : Url;
  auth : Auth;
  connection : option ConnectionRef;
  debug : bool;
  clients : list Handler;
  stopped : bool
}.

(** The calls that leave the client.  The user-agent properties given to
    a new connection name the interpreter and are left out. *)
Inductive Call :=
| ConnectionNew (hostname : option pystr) (auth : Auth) (container_id : pystr) (debug : bool)
| ConnectionDestroy (c : ConnectionRef)
| HandlerOpen (h : Handler) (connection : option ConnectionRef)
| HandlerClose (h : Handler).

(** The client, the calls made so far, and the number of connections
    made. *)
Record State := mkState {
  self : t;
  calls : list Call;
  connections : nat
}.

Definition set_connection (c : option ConnectionRef) (x : t) : t :=
  mk (container_id x) (address x) (auth x) c (debug x) (clients x) (stopped x).
Definition set_clients (l : list Handler) (x : t) : t :=
  mk (container_id x) (address x) (auth x) (connection x) (debug x) l (stopped x).
Definition set_stopped (b : bool) (x : t) : t :=
  mk (container_id x) (address x) (auth x) (connection x) (debug x) (clients x) b.

Definition on_self (f : t -> t) : M State unit :=
  modify (fun s => mkState (f (self s)) (calls s) (connections s)).

Section Client.

Variable unicode_lower : pystr -> pystr.
Variable urlparse : pystr -> Checked Url.
Variable unquote_plus : pystr -> pystr.

(** [types.AMQPLong(n)] of the transport library, which wraps the epoch of
    a receiver: the constructor returns ([None]) or raises, as it does for
    an integer that does not fit its 64 bits. *)
Variable amqp_long : Z -> option Exn.

(** [EventHubClient(address, username, password, debug)].  [uuid] is the
    text of the random [uuid.uuid4()]. *)
Definition init (uuid : pystr) (address : pystr) (username password : option pystr)
    (debug : bool) : Checked t :=
  let container_id := lit "eventhub.pysdk-" ++ take 8 uuid in
  match urlparse address with
  | ValueError m => ValueError m
  | Fine address =>
      let url_username :=
        if truthy (url_username address) then unquote_plus <$> url_username address
        else None in
      let username := or_else username url_username in
      let url_password :=
        if truthy (url_password address) then unquote_plus <$> url_password address
        else None in
      let password := or_else password url_password in
      if negb (truthy username) || negb (truthy password)
      then ValueError "Missing username and/or password."
      else
        let auth_uri := lit "sb://" ++ format_optional (hostname address) ++ path address in
        Fine (mk container_id address
                (mkAuth auth_uri (format_optional username) (format_optional password))
                None debug [] false)
  end.

(** [EventHubClient.from_connection_string(conn_str, eventhub, debug=...)]. *)
Definition from_connection_string (uuid : pystr) (conn_str : pystr)
    (eventhub : option pystr) (debug : bool) : Checked t :=
  match _parse_conn_str unicode_lower conn_str with
  | ValueError m => ValueError m
  | Fine parts =>
      let entity := or_else (entity_path parts) eventhub in
      match _build_uri urlparse (format_optional (endpoint parts)) entity with
      | ValueError m => ValueError m
      | Fine address =>
          init uuid address (shared_access_key_name parts) (shared_access_key parts) debug
      end
  end.

(** How the transport answers a call: it returns ([None]) or raises. *)
Variable behaviour : list Call -> Call -> option Exn.

Definition call (c : Call) : M State unit :=
  fun s =>
    let s' := mkState (self s) (calls s ++ [c]) (connections s) in
    match behaviour (calls s) c with
    | None => (Return tt, s')
    | Some e => (Raise e, s')
    end.

Definition _create_connection : M State unit :=
  (let* s := get in
   match connection (self s) with
   | Some _ => ret tt
   | None =>
       call (ConnectionNew (hostname (address (self s))) (auth (self s))
               (container_id (self s)) (debug (self s))) ;;;
       modify (fun s => mkState (set_connection (Some (connections s)) (self s))
                          (calls s) (S (connections s)))
   end)%py.

Definition _close_connection : M State unit :=
  (let* s := get in
   match connection (self s) with
   | Some c => call (ConnectionDestroy c) ;;; on_self (set_connection None)
   | None => ret tt
   end)%py.

(** [for client in clients: body client]. *)
Fixpoint for_each (body : Handler -> M State unit) (clients : list Handler) : M State unit :=
  match clients with
  | [] => ret tt
  | client :: rest => (body client ;;; for_each body rest)%py
  end.

Definition _close_clients : M State unit :=
  (let* s := get in
   for_each (fun client => call (HandlerClose client)) (clients (self s)))%py.

(** [run]; it returns the client itself. *)
Definition run : M State unit :=
  (_create_connection ;;;
   let* s := get in
   for_each
     (fun client => let* s := get in call (HandlerOpen client (connection (self s))))
     (clients (self s)))%py.

Definition stop : M State unit :=
  (on_self (set_stopped true) ;;;
   _close_clients ;;;
   _close_connection)%py.

(** [self.clients.append(handler._handler)] for a handler just made. *)
Definition register (spec : HandlerSpec) : M State unit :=
  on_self (fun x => set_clients (clients x ++ [mkHandler (length (clients x)) spec]) x).

Definition add_receiver (consumer_group partition : pystr) (offset : option Offset.t)
    (prefetch : option Z) : M State Receiver.t :=
  (let* s := get in
   let source_url :=
     lit "amqps://" ++ format_optional (hostname (address (self s)))
     ++ path (address (self s)) ++ lit "/ConsumerGroups/" ++ consumer_group
     ++ lit "/Partitions/" ++ partition in
   let* filter :=
     match offset with
     | None => ret None
     | Some o =>
         match Offset.selector o with
         | Return b => ret (Some b)
         | Raise e => raise e
         end
     end in
   let handler := Receiver.init prefetch None in
   register (ReceiveClient (SourceObject source_url filter) (auth (self s)) (debug (self s))
               (Receiver.prefetch handler) None 0) ;;;
   ret handler)%py.

Definition add_epoch_receiver (consumer_group partition : pystr) (epoch : Z)
    (prefetch : option Z) : M State Receiver.t :=
  (let* s := get in
   let source_url :=
     lit "amqps://" ++ format_optional (hostname (address (self s)))
     ++ path (address (self s)) ++ lit "/ConsumerGroups/" ++ consumer_group
     ++ lit "/Partitions/" ++ partition in
   let handler := Receiver.init prefetch (Some epoch) in
   let* properties :=
     if decide (epoch = 0%Z) then ret None
     else match amqp_long epoch with
          | None => ret (Some epoch)
          | Some e => raise e
          end in
   register (ReceiveClient (SourceAddress source_url) (auth (self s)) (debug (self s))
               (Receiver.prefetch handler) properties 0) ;;;
   ret handler)%py.

Definition add_sender (partition : option pystr) : M State Sender.t :=
  (let* s := get in
   let target :=
     lit "amqps://" ++ format_optional (hostname (address (self s)))
     ++ path (address (self s)) in
   let target :=
     if truthy partition then target ++ lit "/Partitions/" ++ format_optional partition
     else target in
   register (SendClient target (auth (self s)) (debug (self s)) 60) ;;;
   ret Sender.init)%py.

(** The public methods that take the client through its life. *)
Inductive Method :=
| Run
| Stop
| AddSender (partition : option pystr)
| AddReceiver (consumer_group partition : pystr) (offset : option Offset.t)
    (prefetch : option Z)
| AddEpochReceiver (consumer_group partition : pystr) (epoch : Z) (prefetch : option Z).

Definition invoke (m : Method) : M State unit :=
  match m with
  | Run => run
  | Stop => stop
  | AddSender partition => (add_sender partition ;;; ret tt)%py
  | AddReceiver consumer_group partition offset prefetch =>
      (add_receiver consumer_group partition offset prefetch ;;; ret tt)%py
  | AddEpochReceiver consumer_group partition epoch prefetch =>
      (add_epoch_receiver consumer_group partition epoch prefetch ;;; ret tt)%py
  end.

Definition invoke_all (ms : list Method) (s : State) : State :=
  fold_left (fun s m => snd (invoke m s)) ms s.

End Client.

(** The calls made between the states [s] and [s']. *)
Definition made_after (s s' : State) : list Call :=
  drop (length (calls s)) (calls s').

(** The connection the client holds after a [run] that went through: the
    one it held, or else the next new one. *)
Definition connection_after_run (s : State) : ConnectionRef :=
  match connection (self s) with
  | Some c => c
  | None => connections s
  end.

(** The call by which [run] makes a connection for the client of [s]. *)
Definition connection_new (s : State) : Call :=
  ConnectionNew (hostname (address (self s))) (auth (self s)) (container_id (self s))
    (debug (self s)).

End Client.

(** ** azure/eventprocessorhost/partition_pump.py *)

Module PartitionPump.

(** Strings that the pump only stores and compares (statuses, reasons,
    identifiers) are kept as Rocq strings. *)

(** Modelled from the spec: the lease class is not part of the sources; the
    data model gives a lease a partition id, an epoch, an owner token and an
    expiry. *)
Record Lease := mkLease {
  lease_partition_id : string;
  lease_epoch : Z;
  owner_token : string;
  expiry : Z
}.

(** What the pump reads of its host: [host.guid] and the two fields of
    [host.eh_config].  The host's [event_processor] factory and its
    [storage_manager] are external and appear as [Call]s below. *)
Record Host := mkHost {
  guid : string;
  client_address : string;
  host_consumer_group : string
}.

(** Modelled from the spec: [partition_context.py] is not part of the
    sources.  The data model lists the fields of the context and marks
    [offset] and [sequence_number] optional; a new context has neither. *)
Record PartitionContext := mkContext {
  host_ref : Host;
  partition_id : string;
  eh_path : string;
  consumer_group : string;
  context_lease : option Lease;
  offset : PyVal;
  sequence_number : PyVal
}.

(** Modelled from the spec: the constructor of the absent
    [PartitionContext], called as
    [PartitionContext(host, partition_id, eh_path, consumer_group, loop)]. *)
Definition PartitionContext_init (host : Host) (partition_id eh_path consumer_group : string)
  : PartitionContext :=
  mkContext host partition_id eh_path consumer_group None PyNone PyNone.

(** Modelled from the spec: the absent [set_offset_and_sequence_number],
    the sole mutator of the cursor, which takes the context's offset and
    sequence number from the event's annotations. *)
Definition set_offset_and_sequence_number (ctx : PartitionContext) (event_data : EventData.t)
  : PartitionContext :=
  mkContext (host_ref ctx) (partition_id ctx) (eh_path ctx) (consumer_group ctx)
    (context_lease ctx) (EventData.offset event_data) (EventData.sequence_number event_data).

Definition set_context_lease (l : Lease) (ctx : PartitionContext) : PartitionContext :=
  mkContext (host_ref ctx) (partition_id ctx) (eh_path ctx) (consumer_group ctx)
    (Some l) (offset ctx) (sequence_number ctx).

(** A processor object is known by the number of the factory call that
    made it. *)
Definition ProcessorRef := nat.

(** The calls that leave the pump: to the host's processor factory, to the
    hooks of a processor (with the context as it is when passed), to the
    two hooks a subclass of the pump provides, and to the storage manager. *)
Inductive Call :=
| EventProcessor
| ProcessorOpen (p : ProcessorRef) (context : option PartitionContext)
| ProcessorProcessEvents (p : ProcessorRef) (context : option PartitionContext)
    (events : list (option EventData.t))
| ProcessorProcessError (p : ProcessorRef) (context : option PartitionContext) (error : Exn)
| ProcessorClose (p : ProcessorRef) (context : option PartitionContext) (reason : string)
| OnOpen
| OnClosing (reason : string)
| ReleaseLease (lease : option Lease).

Record t := mk {
  host : Host;
  lease : Lease;
  pump_status : string;
  partition_context : option PartitionContext;
  processor : option ProcessorRef
}.

(** [PartitionPump(host, lease)]. *)
Definition init (host : Host) (lease : Lease) : t :=
  mk host lease "Uninitialized" None None.

(** The pump, the calls made so far (oldest first), and the number of
    processor objects the factory has made. *)
Record State := mkState {
  pump : t;
  calls : list Call;
  instances : nat
}.

Definition set_status (status : string) (p : t) : t :=
  mk (host p) (lease p) status (partition_context p) (processor p).
Definition set_partition_context (c : option PartitionContext) (p : t) : t :=
  mk (host p) (lease p) (pump_status p) c (processor p).
Definition set_processor (r : option ProcessorRef) (p : t) : t :=
  mk (host p) (lease p) (pump_status p) (partition_context p) r.

Definition on_pump (f : t -> t) : M State unit :=
  modify (fun s => mkState (f (pump s)) (calls s) (instances s)).

Section Pump.

(** How the world outside the pump answers: given the calls made before
    and the call being made, the call returns ([None]) or raises.  The
    outside world keeps state of its own. *)
Variable behaviour : list Call -> Call -> option Exn.

(** The two hooks a subclass provides, [on_open_async] and
    [on_closing_async], are methods of the pump itself and may call
    [set_pump_status] before they return or raise.  [hook_status cs c] is the
    status that the hook call [c], made after the calls [cs], leaves in this
    way; [None] when it sets none.  The processor's hooks and the storage
    manager are not handed the pump, and the host, the lease, the context and
    the processor are assigned by the pump's methods only. *)
Variable hook_status : list Call -> Call -> option string.

(** Make a call: it is recorded, then it returns or raises. *)
Definition call (c : Call) : M State unit :=
  fun s =>
    let s' := mkState (pump s) (calls s ++ [c]) (instances s) in
    match behaviour (calls s) c with
    | None => (Return tt, s')
    | Some e => (Raise e, s')
    end.

(** [self.host.event_processor(self.host.event_processor_params)]: when it
    returns, it returns a new processor object. *)
Definition event_processor : M State ProcessorRef :=
  (call EventProcessor ;;;
   let* s := get in
   modify (fun s => mkState (pump s) (calls s) (S (instances s))) ;;;
   ret (instances s))%py.

(** A method call [self.processor.<hook>(...)]: on [None] the attribute
    lookup raises. *)
Definition processor_call (hook : string) (c : ProcessorRef -> option PartitionContext -> Call)
  : M State unit :=
  (let* s := get in
   match processor (pump s) with
   | None => raise (AttributeError hook)
   | Some p => call (c p (partition_context (pump s)))
   end)%py.

(** Reading [self.partition_context.<attr>], as the log lines do. *)
Definition context_attr (attr : string) : M State unit :=
  (let* s := get in
   match partition_context (pump s) with
   | None => raise (AttributeError attr)
   | Some _ => ret tt
   end)%py.

Definition set_pump_status (status : string) : M State unit :=
  on_pump (set_status status).

(** A call of [self.on_open_async()] or [self.on_closing_async(reason)]:
    the hook sets the status it sets, and the call returns or raises. *)
Definition own_hook (c : Call) : M State unit :=
  (let* s := get in
   match hook_status (calls s) c with
   | Some status => set_pump_status status
   | None => ret tt
   end ;;;
   call c)%py.

Definition set_lease (new_lease : Lease) : M State unit :=
  (let* s := get in
   match partition_context (pump s) with
   | Some ctx => on_pump (set_partition_context (Some (set_context_lease new_lease ctx)))
   | None => ret tt
   end)%py.

Definition is_closing : M State bool :=
  (let* s := get in
   ret (bool_decide (pump_status (pump s) = "Closing")
        || bool_decide (pump_status (pump s) = "Closed")))%py.

Definition process_error_async (error : Exn) : M State unit :=
  processor_call "process_error_async" (fun p ctx => ProcessorProcessError p ctx error).

Definition open_async : M State unit :=
  (set_pump_status "Opening" ;;;
   let* s := get in
   on_pump (set_partition_context
     (Some (PartitionContext_init (host (pump s)) (lease_partition_id (lease (pump s)))
              (client_address (host (pump s))) (host_consumer_group (host (pump s)))))) ;;;
   let* s := get in
   match partition_context (pump s) with
   | Some ctx =>
       on_pump (set_partition_context (Some (set_context_lease (lease (pump s)) ctx)))
   | None => raise (AttributeError "lease")
   end ;;;
   let* p := event_processor in
   on_pump (set_processor (Some p)) ;;;
   try_except
     (processor_call "open_async" ProcessorOpen)
     (fun err =>
        process_error_async err ;;;
        on_pump (set_processor None) ;;;
        set_pump_status "OpenFailed") ;;;
   let* s := get in
   if decide (pump_status (pump s) = "Opening") then own_hook OnOpen else ret tt)%py.

(** [run]: the event loop it makes runs [open_async] to its end. *)
Definition run : M State unit := open_async.

Definition close_async (reason : string) : M State unit :=
  (set_pump_status "Closing" ;;;
   try_except
     (own_hook (OnClosing reason) ;;;
      let* s := get in
      match processor (pump s) with
      | Some _ =>
          context_attr "partition_id" ;;;
          processor_call "close_async" (fun p ctx => ProcessorClose p ctx reason) ;;;
          context_attr "partition_id"
      | None => ret tt
      end)
     (fun err =>
        process_error_async err ;;;
        context_attr "partition_id" ;;;
        raise err) ;;;
   (if decide (reason = "LeaseLost") then
      try_except
        (let* s := get in
         match partition_context (pump s) with
         | None => raise (AttributeError "lease")
         | Some ctx => call (ReleaseLease (context_lease ctx))
         end)
        (fun err =>
           context_attr "partition_id" ;;;
           raise err)
    else ret tt) ;;;
   set_pump_status "Closed")%py.

(** [events] is the batch, a list whose elements are events or [None]; an
    empty batch is falsy, and so is no batch at all. *)
Definition process_events_async (events : list (option EventData.t)) : M State unit :=
  match events with
  | [] => ret tt
  | _ :: _ =>
      try_except
        (match last events with
         | Some (Some event_data) =>
             (let* s := get in
              match partition_context (pump s) with
              | None => raise (AttributeError "set_offset_and_sequence_number")
              | Some ctx =>
                  on_pump (set_partition_context
                    (Some (set_offset_and_sequence_number ctx event_data)))
              end ;;;
              processor_call "process_events_async"
                (fun p ctx => ProcessorProcessEvents p ctx events))%py
         | _ => ret tt
         end)
        (fun err => process_error_async err)
  end.

(** The public methods of a pump, for sequences of calls on one pump. *)
Inductive Method :=
| Run
| SetPumpStatus (status : string)
| SetLease (new_lease : Lease)
| OpenAsync
| IsClosing
| CloseAsync (reason : string)
| ProcessEventsAsync (events : list (option EventData.t))
| ProcessErrorAsync (error : Exn).

Definition invoke (m : Method) : M State unit :=
  match m with
  | Run => run
  | SetPumpStatus status => set_pump_status status
  | SetLease new_lease => set_lease new_lease
  | OpenAsync => open_async
  | IsClosing => (is_closing ;;; ret tt)%py
  | CloseAsync reason => close_async reason
  | ProcessEventsAsync events => process_events_async events
  | ProcessErrorAsync error => process_error_async error
  end.

(** The state after a sequence of method calls; a caller that catches what
    one call raises can go on to make the next. *)
Definition invoke_all (ms : list Method) (s : State) : State :=
  fold_left (fun s m => snd (invoke m s)) ms s.

End Pump.

(** *** Vocabulary of the statements about the pump *)

(** The processor object whose hook a call invokes, if it is a call to a
    processor hook. *)
Definition processor_of (c : Call) : option ProcessorRef :=
  match c with
  | ProcessorOpen p _ | ProcessorProcessEvents p _ _
  | ProcessorProcessError p _ _ | ProcessorClose p _ _ => Some p
  | EventProcessor | OnOpen | OnClosing _ | ReleaseLease _ => None
  end.

(** The calls made between the states [s] and [s']. *)
Definition made_after (s s' : State) : list Call :=
  drop (length (calls s)) (calls s').

(** The leases handed to [release_lease_async] in a list of calls. *)
Definition released (cs : list Call) : list (option Lease) :=
  omap (fun c => match c with ReleaseLease l => Some l | _ => None end) cs.

(** The context [open_async] builds for the pump of [s]. *)
Definition opened_context (s : State) : PartitionContext :=
  set_context_lease (lease (pump s))
    (PartitionContext_init (host (pump s)) (lease_partition_id (lease (pump s)))
       (client_address (host (pump s))) (host_consumer_group (host (pump s)))).

(** The pump does not hold processor [p], which the factory has already
    made, and since the calls [base] no hook of [p] has been called. *)
Definition discarded (p : ProcessorRef) (base : list Call) (s : State) : Prop :=
  (p < instances s)%nat /\
  processor (pump s) <> Some p /\
  exists l, calls s = base ++ l /\ Forall (fun c => processor_of c <> Some p) l.

(** The computation [m] keeps the property [P] of states, however it ends. *)
Definition keeps {A} (P : State -> Prop) (m : M State A) : Prop :=
  forall s, P s -> P (snd (m s)).

(** The computation [m] assigns no field of the pump. *)
Definition leaves_pump {A} (m : M State A) : Prop :=
  forall s, pump (snd (m s)) = pump s.

(** The pumps [p] and [p'] differ in their status at most. *)
Definition same_but_status (p p' : t) : Prop :=
  host p' = host p /\ lease p' = lease p /\
  partition_context p' = partition_context p /\ processor p' = processor p.

(** The computation [m] assigns no field of the pump but the status. *)
Definition assigns_status_only {A} (m : M State A) : Prop :=
  forall s, same_but_status (pump s) (pump (snd (m s))).

(** What [is_closing] answers on a pump whose status is [status]. *)
Definition closing_answer (status : string) : bool :=
  bool_decide (status = "Closing") || bool_decide (status = "Closed").

End PartitionPump.

(** ** Vocabulary of the statements *)

(** Every character of [s] is ASCII. *)
Definition ascii_only (s : string) : bool :=
  forallb (fun a => (N_of_ascii a <? 128)%N) (list_ascii_of_string s).

(** The decimal numeral of [n], as [bytes]. *)
Definition decimal (n : Z) : bytes := NilZero.string_of_int (Z.to_int n).

(** What the completion hook has recorded once the transport has made the
    calls [cs] to it. *)
Definition recorded (cs : list (MessageSendResult * PyVal)) (s : Sender.t) : Sender.t :=
  snd (Sender.run_completions cs s).

(** The user callback, if there is one, returns when called with [e]. *)
Definition callback_returns (s : Receiver.State) (e : EventData.t) : Prop :=
  match Receiver._callback (Receiver.self s) with
  | Some cb => cb (Receiver.called s) e = None
  | None => True
  end.

(** ** Concrete inputs *)

Module Samples.

Definition message1 : Message :=
  mkMessage
    {[ "x-opt-offset" := PyStr (lit "4096");
       "x-opt-sequence-number" := PyInt 17;
       "x-opt-partition-key" := PyBytes "pk" ]}
    ∅ "payload".

Definition event1 : EventData.t := EventData.create message1.

(** A transport that reports a failed delivery and returns. *)
Definition failing_transport (_ : Message) : Sender.Submit :=
  Sender.mkSubmit [(Failed, PyStr (lit "amqp:link:detach-forced"))] None.

(** A transport that reports a successful delivery and returns. *)
Definition ok_transport (_ : Message) : Sender.Submit :=
  Sender.mkSubmit [(Ok, PyNone)] None.

Definition quiet_callback : Receiver.Callback := fun _ _ => None.

Definition receiver1 : Receiver.State :=
  Receiver.mkState
    (Receiver.set_callback (Some quiet_callback) (Receiver.init None None)) [].

Import PartitionPump.

Definition host1 : Host := mkHost "host-1" "sb://ns/hub" "$Default".

Definition lease1 : Lease := mkLease "0" 1 "token-1" 0.

(** A pump as its constructor leaves it, before any call. *)
Definition fresh1 : State := mkState (init host1 lease1) [] 0.

(** Every call outside the pump returns. *)
Definition all_return : list Call -> Call -> option Exn := fun _ _ => None.

(** The hooks of the pump's subclass set no status. *)
Definition sets_nothing : list Call -> Call -> option string := fun _ _ => None.

(** A pump whose [open_async] went through. *)
Definition opened1 : State := snd (open_async all_return sets_nothing fresh1).

Definition context1 : PartitionContext := opened_context fresh1.

(** The closing hook of the pump's subclass raises. *)
Definition closing_hook_raises : list Call -> Call -> option Exn :=
  fun _ c => match c with OnClosing _ => Some (UserError 1) | _ => None end.

(** The processor's open hook raises. *)
Definition open_hook_raises : list Call -> Call -> option Exn :=
  fun _ c => match c with ProcessorOpen _ _ => Some (UserError 1) | _ => None end.

(** The processor's open hook raises and so does its error hook. *)
Definition open_and_error_hooks_raise : list Call -> Call -> option Exn :=
  fun _ c =>
    match c with
    | ProcessorOpen _ _ => Some (UserError 1)
    | ProcessorProcessError _ _ _ => Some (UserError 2)
    | _ => None
    end.

(** The processor's events hook raises. *)
Definition events_hook_raises : list Call -> Call -> option Exn :=
  fun _ c => match c with ProcessorProcessEvents _ _ _ => Some (UserError 1) | _ => None end.

(** The processor's events hook raises and so does its error hook. *)
Definition events_and_error_hooks_raise : list Call -> Call -> option Exn :=
  fun _ c =>
    match c with
    | ProcessorProcessEvents _ _ _ => Some (UserError 1)
    | ProcessorProcessError _ _ _ => Some (UserError 2)
    | _ => None
    end.

End Samples.

(** ** Further concrete inputs *)

Module Inputs.

(** A callback that raises on every event. *)
Definition raising_callback : Receiver.Callback := fun _ _ => Some (UserError 3).

Definition receiver2 : Receiver.State :=
  Receiver.mkState
    (Receiver.set_callback (Some raising_callback) (Receiver.init None None)) [].

(** A message without annotations. *)
Definition bare_message : Message := mkMessage ∅ ∅ "payload".

(** A second message, further on in the partition. *)
Definition message2 : Message :=
  mkMessage
    {[ "x-opt-offset" := PyStr (lit "4184");
       "x-opt-sequence-number" := PyInt 18 ]}
    ∅ "payload-2".

Definition event2 : EventData.t := EventData.create message2.

(** Times in whole seconds. *)
Definition whole_seconds : Receiver.Numbers :=
  Receiver.mkNumbers Z (fun z => z) (fun z => negb (z =? 0)%Z) Z.add Z.sub Z.mul Z.ltb
    (fun z => Return z).

(** The number of fetches, and of readings of the clock, among what was
    asked. *)
Definition fetches (asked : list (Receiver.Asked whole_seconds)) : nat :=
  fold_right (fun a n => match a with Receiver.Fetch _ _ => S n | Receiver.Clock => n end)
    0%nat asked.

Definition readings (asked : list (Receiver.Asked whole_seconds)) : nat :=
  fold_right (fun a n => match a with Receiver.Clock => S n | Receiver.Fetch _ _ => n end)
    0%nat asked.

(** The transport takes in one message at its first fetch, another at its
    second and none after that; the clock stands at zero and moves on by a
    second with each reading. *)
Definition trickle : Receiver.Surroundings whole_seconds :=
  Receiver.mkSurroundings whole_seconds
    (fun asked _ _ =>
       match fetches asked with
       | 0%nat => Receiver.mkFetched [Samples.message1] None
       | 1%nat => Receiver.mkFetched [message2] None
       | _ => Receiver.mkFetched [] None
       end)
    (fun asked => Z.of_nat (readings asked)).

(** A receiver as its constructor leaves it, and nothing asked yet. *)
Definition world1 : Receiver.World whole_seconds :=
  Receiver.mkWorld (Receiver.mkState (Receiver.init None None) []) [].

(** A transport that returns without reporting an outcome. *)
Definition silent_transport (_ : Message) : Sender.Submit := Sender.mkSubmit [] None.

(** A transport that reports a successful delivery and then raises. *)
Definition ok_then_raises (_ : Message) : Sender.Submit :=
  Sender.mkSubmit [(Ok, PyNone)] (Some (UserError 9)).

(** A sender whose last recorded outcome is a failure. *)
Definition failed_sender : Sender.t := Sender.mk (Some Failed) (PyStr (lit "amqp:internal-error")).

(** [str.lower] outside ASCII is not needed for these inputs. *)
Definition no_unicode_lower : pystr -> pystr := fun s => s.

Definition endpoint1 : pystr := lit "sb://ns.servicebus.windows.net/".
Definition key_name1 : pystr := lit "RootManageSharedAccessKey".
Definition key1 : pystr := lit "c2VjcmV0IQ==".
Definition entity1 : pystr := lit "hub".

Section Pump.

Import PartitionPump.

(** The processor's close hook raises. *)
Definition close_hook_raises : list Call -> Call -> option Exn :=
  fun _ c => match c with ProcessorClose _ _ _ => Some (UserError 4) | _ => None end.

(** The storage manager's lease release raises. *)
Definition release_raises : list Call -> Call -> option Exn :=
  fun _ c => match c with ReleaseLease _ => Some (UserError 5) | _ => None end.

(** The host's processor factory raises. *)
Definition factory_raises : list Call -> Call -> option Exn :=
  fun _ c => match c with EventProcessor => Some (UserError 6) | _ => None end.

(** The open hook of the pump's subclass sets the status Opened, and its
    closing hook sets none. *)
Definition open_hook_sets_opened : list Call -> Call -> option string :=
  fun _ c => match c with OnOpen => Some "Opened" | _ => None end.

(** The closing hook of the pump's subclass sets the status Errored before
    it ends. *)
Definition closing_hook_sets_errored : list Call -> Call -> option string :=
  fun _ c => match c with OnClosing _ => Some "Errored" | _ => None end.

End Pump.

Section Client.

Import Client.

Definition url1 : Url := mkUrl None None (Some (lit "ns.servicebus.windows.net")) (lit "/hub").

Definition auth1 : Auth :=
  mkAuth (lit "sb://ns.servicebus.windows.net/hub") key_name1 key1.

(** A client as its constructor leaves it. *)
Definition client1 : State :=
  mkState (mk (lit "eventhub.pysdk-0123abcd") url1 auth1 None false [] false) [] 0.

Definition sender_handler : Handler :=
  mkHandler 0 (SendClient (lit "amqps://ns.servicebus.windows.net/hub") auth1 false 60).

Definition receiver_handler : Handler :=
  mkHandler 1
    (ReceiveClient
       (SourceAddress
          (lit "amqps://ns.servicebus.windows.net/hub/ConsumerGroups/$default/Partitions/0"))
       auth1 false 300 (Some 7%Z) 0).

(** [types.AMQPLong] takes the integers of 64 bits with a sign. *)
Definition int64_only : Z -> option Exn :=
  fun n =>
    if ((- 2 ^ 63 <=? n) && (n <? 2 ^ 63))%Z then None else Some (UserError 8).

(** The client after [add_sender()] and
    [add_epoch_receiver("$default", "0", 7)]. *)
Definition client2 : State :=
  snd (add_epoch_receiver int64_only (lit "$default") (lit "0") 7 None
         (snd (add_sender None client1))).

(** The transport answers every call. *)
Definition all_answer : list Call -> Call -> option Exn := fun _ _ => None.

(** Closing the second handler raises. *)
Definition second_close_raises : list Call -> Call -> option Exn :=
  fun _ c =>
    match c with
    | HandlerClose h => if Nat.eqb (handler_id h) 1 then Some (UserError 7) else None
    | _ => None
    end.

End Client.

End Inputs.

(** * Properties *)

(** ** Encoding ASCII text *)

Section Encoding.

Import Utf8.

Lemma encode_code_point_ascii (a : ascii) :
  (N_of_ascii a <? 128)%N = true -> encode_code_point (N_of_ascii a) = Return [a].
Proof.
  intros Ha. unfold encode_code_point, octet.
  rewrite Ha, ascii_N_embedding. reflexivity.
Qed.

Lemma encode_chars_app (s1 s2 : pystr) :
  encode_chars (s1 ++ s2) =
  match encode_chars s1 with
  | Raise e => Raise e
  | Return b1 =>
      match encode_chars s2 with
      | Raise e => Raise e
      | Return b2 => Return (b1 ++ b2)
      end
  end.
Proof.
  induction s1 as [|c s1 IH]; simpl.
  - destruct (encode_chars s2); reflexivity.
  - destruct (encode_code_point c) as [bs|e]; [|reflexivity].
    rewrite IH. destruct (encode_chars s1) as [b1|e]; [|reflexivity].
    destruct (encode_chars s2) as [b2|e]; [|reflexivity].
    rewrite app_assoc. reflexivity.
Qed.

Lemma encode_chars_lit (s : string) :
  ascii_only s = true -> encode_chars (lit s) = Return (list_ascii_of_string s).
Proof.
  unfold ascii_only, lit. induction s as [|a s IH]; simpl; [reflexivity|].
  intros H. apply andb_prop in H as [Ha Hs].
  rewrite (encode_code_point_ascii a Ha), (IH Hs). reflexivity.
Qed.

Lemma ascii_only_app (s1 s2 : string) :
  ascii_only (s1 +:+ s2) = ascii_only s1 && ascii_only s2.
Proof.
  unfold ascii_only. induction s1 as [|a s1 IH]; simpl; [reflexivity|].
  rewrite IH. apply andb_assoc.
Qed.

Lemma ascii_only_uint (u : Decimal.uint) : ascii_only (NilEmpty.string_of_uint u) = true.
Proof. induction u; simpl; try reflexivity; exact IHu. Qed.

Lemma ascii_only_decimal (n : Z) : ascii_only (decimal n) = true.
Proof.
  unfold decimal, NilZero.string_of_int, NilZero.string_of_uint.
  destruct (Z.to_int n) as [u|u]; destruct u; try reflexivity;
    change (ascii_only (String ?a ?s)) with (ascii_only s);
    apply ascii_only_uint.
Qed.

Lemma list_ascii_app (s1 s2 : string) :
  list_ascii_of_string (s1 +:+ s2) = list_ascii_of_string s1 ++ list_ascii_of_string s2.
Proof. induction s1 as [|a s1 IH]; simpl; [reflexivity|]. rewrite IH. reflexivity. Qed.

Lemma string_of_list_ascii_app (l1 l2 : list ascii) :
  string_of_list_ascii (l1 ++ l2) = string_of_list_ascii l1 +:+ string_of_list_ascii l2.
Proof. induction l1 as [|a l1 IH]; simpl; [reflexivity|]. rewrite IH. reflexivity. Qed.

End Encoding.

(** The encoder on code points of two, three and four octets, and on a
    surrogate, which [encode] rejects. *)
Example encode_utf8_two_octets :
  Utf8.encode_utf8 [233%N] = Return (string_of_list_ascii (map ascii_of_N [195; 169]%N)).
Proof. reflexivity. Qed.

Example encode_utf8_three_octets :
  Utf8.encode_utf8 [8364%N] =
  Return (string_of_list_ascii (map ascii_of_N [226; 130; 172]%N)).
Proof. reflexivity. Qed.

Example encode_utf8_four_octets :
  Utf8.encode_utf8 [128512%N] =
  Return (string_of_list_ascii (map ascii_of_N [240; 159; 152; 128]%N)).
Proof. reflexivity. Qed.

Example encode_utf8_surrogate :
  Utf8.encode_utf8 [97%N; 55296%N] = Raise UnicodeEncodeError.
Proof. reflexivity. Qed.

(** Text made of ASCII characters encodes to itself. *)
Lemma encode_utf8_lit (s : string) :
  ascii_only s = true -> Utf8.encode_utf8 (lit s) = Return s.
Proof.
  intros H. unfold Utf8.encode_utf8. rewrite (encode_chars_lit s H).
  rewrite string_of_list_ascii_of_string. reflexivity.
Qed.

Lemma lit_app (s1 s2 : string) : lit (s1 +:+ s2) = lit s1 ++ lit s2.
Proof. unfold lit. rewrite list_ascii_app. apply map_app. Qed.

(** ** Offset.selector *)

(** An [int] value always renders the enqueued-time filter. *)
Lemma selector_int (n : Z) (incl : bool) :
  Offset.selector (Offset.mk (Offset.OffInt n) incl) =
  Return ("amqp.annotation.x-opt-enqueued-time > '" +:+ decimal n +:+ "'").
Proof.
  unfold Offset.selector, format_int. cbn [Offset.value].
  fold (decimal n). rewrite <- !lit_app.
  apply encode_utf8_lit.
  rewrite !ascii_only_app, ascii_only_decimal. reflexivity.
Qed.

(** A [str] value renders the offset filter around its own encoding. *)
Lemma selector_str (s : pystr) (incl : bool) :
  Offset.selector (Offset.mk (Offset.OffStr s) incl) =
  match Utf8.encode_utf8 s with
  | Return b =>
      Return ("amqp.annotation.x-opt-offset " +:+ (if incl then ">=" else ">")
              +:+ " '" +:+ b +:+ "'")
  | Raise e => Raise e
  end.
Proof.
  unfold Offset.selector, Utf8.encode_utf8. cbn [Offset.value Offset.inclusive].
  set (op := if incl then ">=" else ">").
  assert (Hop : (if incl then lit ">=" else lit ">") = lit op) by (destruct incl; reflexivity).
  rewrite Hop.
  assert (Hpre : lit "amqp.annotation.x-opt-offset " ++ lit op ++ lit " '" ++ s ++ lit "'"
               = lit ("amqp.annotation.x-opt-offset " +:+ op +:+ " '") ++ s ++ lit "'").
  { rewrite !lit_app, <- !app_assoc. reflexivity. }
  rewrite Hpre, !encode_chars_app, !encode_chars_lit
    by (subst op; destruct incl; reflexivity).
  destruct (Utf8.encode_chars s) as [b|e]; [|reflexivity].
  rewrite !string_of_list_ascii_app, !string_of_list_ascii_of_string.
  f_equal. subst op. destruct incl; reflexivity.
Qed.

(** C1, as the code has it: an integer value, 12345 among them, renders
    the x-opt-enqueued-time filter with [>] whatever [inclusive] is; the
    x-opt-offset filter with [>] or [>=] according to [inclusive] is what a
    string value renders, the string 12345 among them. *)
Theorem selector_forms :
  (forall (n : Z) (incl : bool),
     Offset.selector (Offset.mk (Offset.OffInt n) incl) =
     Return ("amqp.annotation.x-opt-enqueued-time > '" +:+ decimal n +:+ "'")) /\
  Offset.selector (Offset.init (Offset.OffInt 12345) None) =
    Return "amqp.annotation.x-opt-enqueued-time > '12345'" /\
  Offset.selector (Offset.init (Offset.OffInt 12345) (Some true)) =
    Return "amqp.annotation.x-opt-enqueued-time > '12345'" /\
  (forall (s : pystr) (incl : bool),
     Offset.selector (Offset.mk (Offset.OffStr s) incl) =
     match Utf8.encode_utf8 s with
     | Return b =>
         Return ("amqp.annotation.x-opt-offset " +:+ (if incl then ">=" else ">")
                 +:+ " '" +:+ b +:+ "'")
     | Raise e => Raise e
     end) /\
  Offset.selector (Offset.init (Offset.OffStr (lit "12345")) None) =
    Return "amqp.annotation.x-opt-offset > '12345'" /\
  Offset.selector (Offset.init (Offset.OffStr (lit "12345")) (Some true)) =
    Return "amqp.annotation.x-opt-offset >= '12345'".
Proof.
  split; [exact selector_int|].
  split; [apply (selector_int 12345 false)|].
  split; [apply (selector_int 12345 true)|].
  split; [exact selector_str|].
  split.
  - unfold Offset.init. cbn [default]. rewrite selector_str.
    rewrite (encode_utf8_lit "12345") by reflexivity. reflexivity.
  - unfold Offset.init. cbn [default]. rewrite selector_str.
    rewrite (encode_utf8_lit "12345") by reflexivity. reflexivity.
Qed.

(** C1 as stated fails: [Offset(12345).selector()] is not the x-opt-offset
    filter, and neither is [Offset(12345, inclusive=True).selector()]. *)
Lemma selector_int_12345_not_offset_filter :
  Offset.selector (Offset.init (Offset.OffInt 12345) None) <>
    Return "amqp.annotation.x-opt-offset > '12345'" /\
  Offset.selector (Offset.init (Offset.OffInt 12345) (Some true)) <>
    Return "amqp.annotation.x-opt-offset >= '12345'".
Proof.
  unfold Offset.init. cbn [default]. rewrite !selector_int.
  split; intros H; discriminate H.
Qed.

(** ** EventData *)

(** C9: the three properties of a wrapped message are the entries of the
    message's annotations under x-opt-sequence-number, x-opt-offset and
    x-opt-partition-key ([None] where there is no entry), and the wrapper
    holds the message itself. *)
Theorem create_reads_annotations (m : Message) :
  EventData.sequence_number (EventData.create m) =
    default PyNone (message_annotations m !! "x-opt-sequence-number") /\
  EventData.offset (EventData.create m) =
    default PyNone (message_annotations m !! "x-opt-offset") /\
  EventData.partition_key (EventData.create m) =
    default PyNone (message_annotations m !! "x-opt-partition-key") /\
  EventData.message (EventData.create m) = Some m /\
  EventData.properties (EventData.create m) = application_properties m.
Proof. repeat split. Qed.

(** [d.get(key, None)] of an entry that is present is the entry. *)
Lemma dict_get_present (d : gmap bytes PyVal) (key : bytes) (v : PyVal) :
  d !! key = Some v -> dict_get d key = v.
Proof. unfold dict_get. intros ->. reflexivity. Qed.

(** ** Sender *)

Lemma run_completions_returns (cs : list (MessageSendResult * PyVal)) (s : Sender.t) :
  Sender.run_completions cs s = (Return tt, recorded cs s).
Proof.
  unfold recorded. revert s.
  induction cs as [|[o c] cs IH]; intros s; [reflexivity|].
  cbn [Sender.run_completions]. unfold bind at 1.
  unfold Sender._on_outcome at 1, modify at 1.
  rewrite IH. reflexivity.
Qed.

(** The slot holds the pair of the last call to the hook, and what it held
    before when the hook was not called. *)
Lemma recorded_last (cs : list (MessageSendResult * PyVal)) (o : MessageSendResult)
    (c : PyVal) (s : Sender.t) :
  recorded [] s = s /\ recorded (cs ++ [(o, c)]) s = Sender.mk (Some o) c.
Proof.
  split; [reflexivity|].
  unfold recorded. revert s.
  induction cs as [|[o' c'] cs IH]; intros s; [reflexivity|].
  cbn [app Sender.run_completions]. unfold bind at 1.
  unfold Sender._on_outcome at 1, modify at 1. apply IH.
Qed.

(** C8, as the code has it: for an event that carries a message, [send]
    leaves the slot as the completion hook recorded it; when the transport's
    blocking submit returns, [send] returns normally if the recorded outcome
    is Ok and otherwise raises EventHubError with the recorded outcome and
    condition; when the submit raises, [send] raises what it raised, whatever
    was recorded.  For an event without a message [send] raises
    AttributeError and changes nothing. *)
Theorem send_raises_unless_ok (transport : Message -> Sender.Submit)
    (event_data : EventData.t) (s : Sender.t) :
  (EventData.message event_data = None ->
   Sender.send transport event_data s = (Raise (AttributeError "message"), s)) /\
  (forall message, EventData.message event_data = Some message ->
   let r := recorded (Sender.completions (transport message)) s in
   snd (Sender.send transport event_data s) = r /\
   (forall err, Sender.submit_raises (transport message) = Some err ->
      fst (Sender.send transport event_data s) = Raise err) /\
   (Sender.submit_raises (transport message) = None ->
      (Sender._outcome r = Some Ok ->
       fst (Sender.send transport event_data s) = Return tt) /\
      (Sender._outcome r <> Some Ok ->
       fst (Sender.send transport event_data s) =
       Raise (EventHubError (Sender._outcome r) (Sender._condition r))))).
Proof.
  split.
  - intros Hm. unfold Sender.send. rewrite Hm. reflexivity.
  - intros message Hm r.
    unfold Sender.send. rewrite Hm.
    unfold Sender.send_message, bind. rewrite run_completions_returns.
    fold r. unfold ret, get, raise.
    destruct (Sender.submit_raises (transport message)) as [err|].
    + split; [reflexivity|]. split; [intros ? [= <-]; reflexivity|]. discriminate.
    + destruct (decide (Sender._outcome r ≠ Some Ok)) as [Hne|Heq].
      * unfold Sender._error.
        destruct (decide (Sender._outcome r = Some Ok)) as [Heq|_]; [contradiction|].
        cbn. split; [reflexivity|]. split; [discriminate|]. intros _.
        split; [intros Heq; contradiction|intros _; reflexivity].
      * cbn. split; [reflexivity|]. split; [discriminate|]. intros _.
        split; [intros _; reflexivity|intros Hne; contradiction].
Qed.

(** C8 as stated fails outside these calls: with Ok recorded from an
    earlier delivery, [send] of an event without a body raises, and what it
    raises is AttributeError; and when the transport's submit raises after
    it has reported Ok, [send] raises although the recorded outcome is Ok. *)
Lemma send_raises_with_ok_recorded :
  let s := snd (Sender.send Samples.ok_transport Samples.event1 Sender.init) in
  let bodiless := Sender.send Samples.ok_transport (EventData.init None) s in
  let interrupted := Sender.send Inputs.ok_then_raises Samples.event1 Sender.init in
  Sender._outcome s = Some Ok /\
  fst bodiless = Raise (AttributeError "message") /\
  Sender._outcome (snd bodiless) = Some Ok /\
  fst bodiless <> Return tt /\
  fst interrupted = Raise (UserError 9) /\
  Sender._outcome (snd interrupted) = Some Ok /\
  fst interrupted <> Return tt.
Proof. cbv zeta. repeat split; discriminate. Qed.

(** ** Receiver *)

(** [on_message] returns the wrapped message unless the user callback
    raises. *)
Lemma on_message_returns (s : Receiver.State) (event : Message) :
  callback_returns s (EventData.create event) ->
  exists s', Receiver.on_message event s = (Return (EventData.create event), s').
Proof.
  unfold callback_returns, Receiver.on_message, bind, get, Receiver.on_self, modify, ret.
  cbn [Receiver.self Receiver._callback Receiver.set_delivered].
  destruct (Receiver._callback (Receiver.self s)) as [cb|]; intros H.
  - unfold Receiver.call_callback. cbn [Receiver.called]. rewrite H. eauto.
  - eauto.
Qed.

(** What a run of [on_message] that returns leaves behind. *)
Lemma on_message_returned (s s' : Receiver.State) (event : Message)
    (event_data : EventData.t) :
  Receiver.on_message event s = (Return event_data, s') ->
  event_data = EventData.create event /\
  s' = Receiver.mkState
         (Receiver.set_offset (EventData.offset event_data)
            (Receiver.set_delivered (Receiver.delivered (Receiver.self s) + 1)
               (Receiver.self s)))
         (Receiver.called s ++
          match Receiver._callback (Receiver.self s) with
          | Some _ => [event_data]
          | None => []
          end).
Proof.
  unfold Receiver.on_message, bind, get, Receiver.on_self, modify, ret.
  cbn [Receiver.self Receiver._callback Receiver.set_delivered].
  destruct (Receiver._callback (Receiver.self s)) as [cb|].
  - unfold Receiver.call_callback. cbn [Receiver.called Receiver.self].
    destruct (cb (Receiver.called s) (EventData.create event)); intros H;
      inversion H; subst; clear H.
    split; reflexivity.
  - intros H; inversion H; subst; clear H. cbn [Receiver.called Receiver.self].
    rewrite app_nil_r. split; reflexivity.
Qed.

(** The events a batch [receive] yields: every fetched message wrapped, in
    order; the callback supplied to [receive] has been called once with
    each of them, in that order; and the offset is that of the last one. *)
Lemma receive_message_batch_yields (fetched : list Message) :
  forall (s s' : Receiver.State) (evs : list EventData.t),
  Receiver.receive_message_batch Receiver.on_message fetched s = (Return evs, s') ->
  evs = map EventData.create fetched /\
  Receiver.called s' =
    Receiver.called s ++
    match Receiver._callback (Receiver.self s) with
    | Some _ => evs
    | None => []
    end /\
  Receiver._callback (Receiver.self s') = Receiver._callback (Receiver.self s) /\
  Receiver.offset (Receiver.self s') =
    match last fetched with
    | Some m => default PyNone (message_annotations m !! "x-opt-offset")
    | None => Receiver.offset (Receiver.self s)
    end.
Proof.
  induction fetched as [|m ms IH]; intros s s' evs.
  - cbn. intros H; inversion H; subst.
    destruct (Receiver._callback (Receiver.self s')); rewrite app_nil_r; repeat split.
  - cbn [Receiver.receive_message_batch]. unfold bind at 1.
    destruct (Receiver.on_message m s) as [[e|x] s1] eqn:H1; [|discriminate].
    unfold bind at 1.
    destruct (Receiver.receive_message_batch Receiver.on_message ms s1)
      as [[es|x] s2] eqn:H2; [|discriminate].
    unfold ret. intros H; inversion H; subst; clear H.
    apply on_message_returned in H1 as [He Hs1].
    assert (Hoff : Receiver.offset (Receiver.self s1) =
                   default PyNone (message_annotations m !! "x-opt-offset"))
      by (rewrite Hs1, He; reflexivity).
    assert (Hc : Receiver.called s1 =
                 Receiver.called s ++
                 match Receiver._callback (Receiver.self s) with
                 | Some _ => [e]
                 | None => []
                 end) by (rewrite Hs1; reflexivity).
    assert (Hcb : Receiver._callback (Receiver.self s1) =
                  Receiver._callback (Receiver.self s)) by (rewrite Hs1; reflexivity).
    destruct (IH _ _ _ H2) as (Hes & Hc2 & Hcb2 & Hoff2).
    clear Hs1. subst e es. rewrite Hcb in Hc2, Hcb2. rewrite Hc2, Hc, Hcb2, Hoff2.
    split; [reflexivity|]. split; [|split; [reflexivity|]].
    + destruct (Receiver._callback (Receiver.self s)); rewrite <- app_assoc; reflexivity.
    + destruct ms as [|m' ms']; [exact Hoff|].
      change (last (m :: m' :: ms')) with (last (m' :: ms')).
      destruct (last (m' :: ms')) eqn:Hlast; [reflexivity|].
      apply last_None in Hlast. discriminate Hlast.
Qed.

Lemma receive_yields (callback : option Receiver.Callback) (fetched : list Message)
    (s s' : Receiver.State) (evs : list EventData.t) :
  Receiver.receive callback fetched s = (Return evs, s') ->
  evs = map EventData.create fetched /\
  Receiver.called s' =
    Receiver.called s ++ match callback with Some _ => evs | None => [] end.
Proof.
  unfold Receiver.receive, bind at 1. unfold Receiver.on_self at 1, modify at 1.
  intros H. apply receive_message_batch_yields in H as (He & Hc & _).
  split; [exact He|exact Hc].
Qed.

(** *** The generator of [receive] *)

Section GeneratorProperties.

Variable N : Receiver.Numbers.
Variable surroundings : Receiver.Surroundings N.

(** A computation that returned after a bind went through both parts. *)
Lemma bind_returned {S A B} (m : M S A) (k : A -> M S B) (s s' : S) (b : B) :
  bind m k s = (Return b, s') ->
  exists a s1, m s = (Return a, s1) /\ k a s1 = (Return b, s').
Proof.
  unfold bind. destruct (m s) as [[a|e] s1]; [|discriminate].
  intros H. exists a, s1. split; [reflexivity|exact H].
Qed.

Lemma batch_nil_returned (s s' : Receiver.State) (events : list EventData.t) :
  Receiver.receive_message_batch Receiver.on_message [] s = (Return events, s') ->
  events = [] /\ s' = s.
Proof. cbn. unfold ret. intros [= <- <-]. split; reflexivity. Qed.

Lemma batch_cons_returned (m : Message) (ms : list Message) (s s' : Receiver.State)
    (events : list EventData.t) :
  Receiver.receive_message_batch Receiver.on_message (m :: ms) s = (Return events, s') ->
  exists e es s1,
    events = e :: es /\
    Receiver.on_message m s = (Return e, s1) /\
    Receiver.receive_message_batch Receiver.on_message ms s1 = (Return es, s').
Proof.
  cbn [Receiver.receive_message_batch]. intros H.
  apply bind_returned in H as (e & s1 & H1 & H).
  apply bind_returned in H as (es & s2 & H2 & H).
  unfold ret in H. injection H as <- <-.
  exists e, es, s1. split; [reflexivity|]. split; [exact H1|exact H2].
Qed.

(** Two fetches handled one after the other are one fetch of all their
    messages. *)
Lemma batch_app (a b : list Message) :
  forall (s s1 s2 : Receiver.State) (ea eb : list EventData.t),
  Receiver.receive_message_batch Receiver.on_message a s = (Return ea, s1) ->
  Receiver.receive_message_batch Receiver.on_message b s1 = (Return eb, s2) ->
  Receiver.receive_message_batch Receiver.on_message (a ++ b) s = (Return (ea ++ eb), s2).
Proof.
  induction a as [|m a IH]; intros s s1 s2 ea eb Ha Hb.
  - apply batch_nil_returned in Ha as [-> ->]. exact Hb.
  - apply batch_cons_returned in Ha as (e & es & s0 & -> & Hm & Ha).
    cbn [app Receiver.receive_message_batch]. unfold bind at 1. rewrite Hm.
    unfold bind at 1. rewrite (IH _ _ _ _ _ Ha Hb). reflexivity.
Qed.

(** Each event a fetch hands back is what one run of [on_message] returned,
    between the runs for the events before it and those for the events after
    it. *)
Lemma batch_split (h1 : list EventData.t) :
  forall (fetched : list Message) (y : EventData.t) (h2 : list EventData.t)
         (s s' : Receiver.State),
  Receiver.receive_message_batch Receiver.on_message fetched s
    = (Return (h1 ++ y :: h2), s') ->
  exists before event after s1 s2,
    fetched = before ++ event :: after /\
    Receiver.receive_message_batch Receiver.on_message before s = (Return h1, s1) /\
    Receiver.on_message event s1 = (Return y, s2) /\
    Receiver.receive_message_batch Receiver.on_message after s2 = (Return h2, s').
Proof.
  induction h1 as [|x h1 IH]; intros fetched y h2 s s' H.
  - destruct fetched as [|m ms].
    + apply batch_nil_returned in H as [H _]. discriminate H.
    + apply batch_cons_returned in H as (e & es & s1 & [= <- <-] & Hm & Hms).
      exists [], m, ms, s, s1. repeat split; assumption.
  - destruct fetched as [|m ms].
    + apply batch_nil_returned in H as [H _]. discriminate H.
    + apply batch_cons_returned in H as (e & es & s0 & [= <- <-] & Hm & Hms).
      destruct (IH _ _ _ _ _ Hms) as (before & event & after & s1 & s2 & -> & Hb & He & Ha).
      exists (m :: before), event, after, s1, s2.
      split; [reflexivity|]. split; [|split; assumption].
      cbn [Receiver.receive_message_batch]. unfold bind at 1. rewrite Hm.
      unfold bind at 1. rewrite Hb. reflexivity.
Qed.

(** Reading the clock leaves the receiver alone, and so do the computations
    on times. *)
Lemma now_keeps_receiver : Receiver.keeps_receiver (Receiver.now N surroundings).
Proof. intros w. reflexivity. Qed.

Lemma deadline_keeps_receiver (timeout : option (Receiver.number N)) :
  Receiver.keeps_receiver (Receiver.deadline N surroundings timeout).
Proof.
  intros w. unfold Receiver.deadline.
  destruct timeout as [t|]; [destruct (Receiver.nonzero N t)|]; reflexivity.
Qed.

Lemma in_time_keeps_receiver (receive_timeout : option (Receiver.number N)) :
  Receiver.keeps_receiver (Receiver.in_time N surroundings receive_timeout).
Proof.
  intros w. unfold Receiver.in_time.
  destruct receive_timeout as [t|]; [destruct (Receiver.nonzero N t)|]; reflexivity.
Qed.

Lemma remaining_keeps_receiver (receive_timeout : option (Receiver.number N))
    (timeout_ms : Receiver.number N) :
  Receiver.keeps_receiver (Receiver.remaining N surroundings receive_timeout timeout_ms).
Proof.
  intros w. unfold Receiver.remaining.
  destruct receive_timeout as [t|]; [destruct (Receiver.nonzero N t)|]; try reflexivity.
  unfold bind, Receiver.now. destruct (Receiver.to_int N _); reflexivity.
Qed.

(** A fetch that returns hands back what [on_message] returned for the
    messages it took in. *)
Lemma fetch_returned (max_batch_size : option Z) (timeout : Receiver.number N)
    (w w' : Receiver.World N) (events : list EventData.t) :
  Receiver.fetch N surroundings max_batch_size timeout w = (Return events, w') ->
  exists fetched,
    Receiver.receive_message_batch Receiver.on_message fetched (Receiver.receiver w)
    = (Return events, Receiver.receiver w').
Proof.
  unfold Receiver.fetch. intros H.
  apply bind_returned in H as (w0 & w1 & [= <- <-] & H).
  apply bind_returned in H as ([] & w2 & [= <-] & H).
  apply bind_returned in H as (es & w3 & Hbatch & H).
  exists (Receiver.received
            (Receiver.incoming surroundings (Receiver.asked w) max_batch_size timeout)).
  revert Hbatch. unfold Receiver.in_receiver. cbn [Receiver.receiver Receiver.asked].
  destruct (Receiver.receive_message_batch _ _ _) as [r s1]. intros [= -> <-].
  destruct (Receiver.fetch_raises _); [discriminate H|].
  unfold ret in H. injection H as <- <-. reflexivity.
Qed.

(** The test of the loop yields the first event of a fetch or ends the
    generator; it leaves the receiver alone. *)
Lemma loop_test_yielded (receive_timeout : option (Receiver.number N))
    (timeout_ms : Receiver.number N) (message_iter : list EventData.t)
    (w w' : Receiver.World N) (g : Receiver.Generator N) (e : EventData.t) :
  Receiver.loop_test N surroundings receive_timeout timeout_ms message_iter w
    = (Return (g, Some e), w') ->
  message_iter = e :: Receiver.pending g /\
  Receiver.started g /\
  Receiver.receiver w' = Receiver.receiver w.
Proof.
  unfold Receiver.loop_test. destruct message_iter as [|e0 rest]; [discriminate|].
  intros H. apply bind_returned in H as (go_on & w1 & Htime & H).
  pose proof (in_time_keeps_receiver receive_timeout w) as Hkeep.
  rewrite Htime in Hkeep. cbn [snd] in Hkeep.
  destruct go_on; [|discriminate H].
  unfold ret in H. injection H as <- <- <-.
  repeat split. exact Hkeep.
Qed.

(** A started generator that yields again has handled what it yields. *)
Lemma resume_handled (start : Receiver.State) (yielded : list EventData.t)
    (g g' : Receiver.Generator N) (w w' : Receiver.World N) (e : EventData.t) :
  Receiver.started g ->
  Receiver.handled_since start yielded g w ->
  Receiver.resume N surroundings g w = (Return (g', Some e), w') ->
  Receiver.started g' /\ Receiver.handled_since start (yielded ++ [e]) g' w'.
Proof.
  intros Hstarted (fetched & Hfetched) Hresume.
  destruct g as [mbs cb t|[|e0 rest]|rt tm [|e0 rest]|]; cbn [Receiver.resume] in Hresume;
    try contradiction; try discriminate Hresume.
  - injection Hresume as <- <- <-. split; [exact I|].
    exists fetched. cbn [Receiver.pending] in *. rewrite <- app_assoc. exact Hfetched.
  - apply bind_returned in Hresume as (tm' & w1 & Hrem & Hresume).
    apply bind_returned in Hresume as (es & w2 & Hfetch & Hloop).
    pose proof (remaining_keeps_receiver rt tm w) as Hkeep.
    rewrite Hrem in Hkeep. cbn [snd] in Hkeep.
    apply fetch_returned in Hfetch as (more & Hmore). rewrite Hkeep in Hmore.
    apply loop_test_yielded in Hloop as (-> & Hg' & Hw').
    split; [exact Hg'|].
    exists (fetched ++ more). cbn [Receiver.pending] in Hfetched.
    rewrite Hw', <- app_assoc. cbn [app].
    rewrite app_nil_r in Hfetched.
    exact (batch_app _ _ _ _ _ _ _ Hfetched Hmore).
  - injection Hresume as <- <- <-. split; [exact I|].
    exists fetched. cbn [Receiver.pending] in *. rewrite <- app_assoc. exact Hfetched.
Qed.

(** The first resumption puts the callback of the call in place and handles
    a first fetch under it. *)
Lemma resume_created (max_batch_size : option Z) (callback : option Receiver.Callback)
    (timeout : option (Receiver.number N)) (g' : Receiver.Generator N)
    (w w' : Receiver.World N) (e : EventData.t) :
  Receiver.resume N surroundings (Receiver.Created max_batch_size callback timeout) w
    = (Return (g', Some e), w') ->
  Receiver.started g' /\
  Receiver.handled_since (Receiver.with_callback callback (Receiver.receiver w)) [e] g' w'.
Proof.
  cbn [Receiver.resume]. intros H.
  apply bind_returned in H as ([] & w0 & Hset & H).
  assert (Hw0 : Receiver.receiver w0 = Receiver.with_callback callback (Receiver.receiver w)).
  { revert Hset. unfold Receiver.in_receiver, Receiver.on_self, modify.
    intros [= <-]. reflexivity. }
  destruct (Receiver.size_truth max_batch_size).
  - apply bind_returned in H as (es & w1 & Hfetch & H).
    apply fetch_returned in Hfetch as (fetched & Hfetched). rewrite Hw0 in Hfetched.
    destruct es as [|e0 rest]; [discriminate H|].
    unfold ret in H. injection H as <- <- <-.
    split; [exact I|]. exists fetched. exact Hfetched.
  - apply bind_returned in H as (rt & w1 & Hdeadline & H).
    apply bind_returned in H as (es & w2 & Hfetch & Hloop).
    pose proof (deadline_keeps_receiver timeout w0) as Hkeep.
    rewrite Hdeadline in Hkeep. cbn [snd] in Hkeep.
    apply fetch_returned in Hfetch as (fetched & Hfetched). rewrite Hkeep, Hw0 in Hfetched.
    apply loop_test_yielded in Hloop as (-> & Hg' & Hw').
    split; [exact Hg'|]. exists fetched. rewrite Hw'. exact Hfetched.
Qed.

(** The first resumption of a generator made with a batch size does what
    the batch [receive] does on the messages of its fetch, and yields the
    first of its events. *)
Lemma first_resumption_receives_batch (max_batch_size : option Z)
    (callback : option Receiver.Callback) (timeout : option (Receiver.number N))
    (w : Receiver.World N) :
  Receiver.size_truth max_batch_size = true ->
  let timeout_ms := Receiver.milliseconds N timeout in
  let fetched := Receiver.incoming surroundings (Receiver.asked w) max_batch_size timeout_ms in
  let w' s := Receiver.mkWorld s (Receiver.asked w ++ [Receiver.Fetch max_batch_size timeout_ms]) in
  Receiver.fetch_raises fetched = None ->
  Receiver.resume N surroundings (Receiver.Created max_batch_size callback timeout) w =
  match Receiver.receive callback (Receiver.received fetched) (Receiver.receiver w) with
  | (Return (event_data :: rest), s) => (Return (Receiver.InBatch rest, Some event_data), w' s)
  | (Return [], s) => (Return (Receiver.Finished, None), w' s)
  | (Raise e, s) => (Raise e, w' s)
  end.
Proof.
  intros Hsize timeout_ms fetched w' Hreturns. subst w'.
  cbv [Receiver.resume Receiver.receive Receiver.fetch Receiver.in_receiver bind get
       modify Receiver.on_self ret raise].
  rewrite Hsize. cbn [Receiver.receiver Receiver.asked].
  fold timeout_ms. fold fetched.
  match goal with
  | |- context [Receiver.receive_message_batch ?f ?l ?s] =>
      destruct (Receiver.receive_message_batch f l s) as [[[|e rest]|x] s1]
  end; rewrite ?Hreturns; reflexivity.
Qed.

(** What [next] yields, [resume] yielded. *)
Lemma next_yielded (g g' : Receiver.Generator N) (w w' : Receiver.World N)
    (r : Result (option EventData.t)) (e : EventData.t) :
  Receiver.next N surroundings g w = (r, g', w') ->
  r = Return (Some e) ->
  Receiver.resume N surroundings g w = (Return (g', Some e), w').
Proof.
  unfold Receiver.next.
  destruct (Receiver.resume N surroundings g w) as [[[g0 y]|x] w0];
    intros [= <- <- <-]; [intros [= ->]; reflexivity|discriminate].
Qed.

(** A caller that was given as many events as it asked for: all of them
    were handled before they were yielded. *)
Lemma take_events_handled (start : Receiver.State) (n : nat) :
  forall (yielded events : list EventData.t) (g g' : Receiver.Generator N)
         (w w' : Receiver.World N),
  Receiver.started g ->
  Receiver.handled_since start yielded g w ->
  Receiver.take_events N surroundings n g w = (events, g', w') ->
  length events = n ->
  Receiver.handled_since start (yielded ++ events) g' w'.
Proof.
  induction n as [|n IH]; intros yielded events g g' w w' Hg Hinv Htake Hlen.
  - cbn in Htake. injection Htake as <- <- <-. rewrite app_nil_r. exact Hinv.
  - cbn [Receiver.take_events] in Htake.
    destruct (Receiver.next N surroundings g w) as [[r g1] w1] eqn:Hnext.
    destruct r as [[e|]|x]; try (injection Htake as <- <- <-; discriminate Hlen).
    destruct (Receiver.take_events N surroundings n g1 w1) as [[es g2] w2] eqn:Hrest.
    injection Htake as <- <- <-.
    apply (next_yielded _ _ _ _ _ e) in Hnext; [|reflexivity].
    destruct (resume_handled start yielded _ _ _ _ _ Hg Hinv Hnext) as (Hg1 & Hinv1).
    cbn [length] in Hlen. injection Hlen as Hlen.
    pose proof (IH _ _ _ _ _ _ Hg1 Hinv1 Hrest Hlen) as H.
    rewrite <- app_assoc in H. exact H.
Qed.

(** C7: an event that [receive] yields has gone through [on_message]
    before.  When a caller of [receive(max_batch_size, callback, timeout)]
    has been given the events [earlier] and then [event_data], there is a
    message [event] of a fetch for which [on_message], run with the callback
    of that call in place and after the runs for the events given earlier,
    returned [event_data], the wrapped [event]; at the end of that run the
    receiver's offset was the offset annotation of [event], and the callback,
    if there is one, had been called once more, with [event_data]; and the
    receiver is, when [event_data] is yielded, where the runs of [on_message]
    for the events fetched with it and not yet yielded have left it, the
    callback having been called once for each event handled, in order. *)
Theorem receive_yields_after_on_message (max_batch_size : option Z)
    (callback : option Receiver.Callback) (timeout : option (Receiver.number N))
    (w w' : Receiver.World N) (g' : Receiver.Generator N)
    (earlier : list EventData.t) (event_data : EventData.t) :
  Receiver.take_events N surroundings (S (length earlier))
    (Receiver.receive_generator max_batch_size callback timeout) w
  = (earlier ++ [event_data], g', w') ->
  exists (before after : list Message) (event : Message) (s1 s2 : Receiver.State),
    Receiver.receive_message_batch Receiver.on_message before
      (Receiver.with_callback callback (Receiver.receiver w)) = (Return earlier, s1) /\
    Receiver._callback (Receiver.self s1) = callback /\
    Receiver.on_message event s1 = (Return event_data, s2) /\
    event_data = EventData.create event /\
    Receiver.offset (Receiver.self s2) =
      default PyNone (message_annotations event !! "x-opt-offset") /\
    Receiver.called s2 =
      Receiver.called s1 ++ match callback with Some _ => [event_data] | None => [] end /\
    Receiver.receive_message_batch Receiver.on_message after s2
      = (Return (Receiver.pending g'), Receiver.receiver w') /\
    Receiver.called (Receiver.receiver w') =
      Receiver.called (Receiver.receiver w) ++
      match callback with
      | Some _ => earlier ++ event_data :: Receiver.pending g'
      | None => []
      end /\
    Receiver._callback (Receiver.self (Receiver.receiver w')) = callback.
Proof.
  intros Htake.
  assert (Hinv : Receiver.handled_since
                   (Receiver.with_callback callback (Receiver.receiver w))
                   (earlier ++ [event_data]) g' w').
  { cbn [Receiver.take_events] in Htake. unfold Receiver.receive_generator in Htake.
    destruct (Receiver.next N surroundings _ w) as [[r g1] w1] eqn:Hnext.
    destruct r as [[e|]|x];
      try (injection Htake as Hnil _ _; destruct earlier; discriminate Hnil).
    destruct (Receiver.take_events N surroundings (length earlier) g1 w1)
      as [[es g2] w2] eqn:Hrest.
    injection Htake as Hevents <- <-.
    apply (next_yielded _ _ _ _ _ e) in Hnext; [|reflexivity].
    apply resume_created in Hnext as (Hg1 & Hinv1).
    assert (Hlen : length es = length earlier).
    { apply (f_equal (@length _)) in Hevents. rewrite length_app in Hevents.
      cbn [length] in Hevents. lia. }
    pose proof (take_events_handled _ _ _ _ _ _ _ _ Hg1 Hinv1 Hrest Hlen) as H.
    cbn [app] in H. rewrite Hevents in H. exact H. }
  destruct Hinv as (fetched & Hfetched).
  rewrite <- app_assoc in Hfetched. cbn [app] in Hfetched.
  pose proof Hfetched as Hall.
  apply batch_split in Hfetched
    as (before & event & after & s1 & s2 & -> & Hbefore & Hevent & Hafter).
  exists before, after, event, s1, s2.
  pose proof (receive_message_batch_yields _ _ _ _ Hbefore) as (_ & _ & Hcb1 & _).
  pose proof (receive_message_batch_yields _ _ _ _ Hall) as (_ & Hcalled & Hcb & _).
  cbn [Receiver.with_callback Receiver.self Receiver.called Receiver._callback
       Receiver.set_callback] in Hcb1, Hcalled, Hcb.
  pose proof (on_message_returned _ _ _ _ Hevent) as (Hwrapped & Hs2).
  split; [exact Hbefore|]. split; [exact Hcb1|]. split; [exact Hevent|].
  split; [exact Hwrapped|].
  split; [rewrite Hs2, Hwrapped; reflexivity|].
  split; [rewrite Hs2, Hcb1; reflexivity|].
  split; [exact Hafter|]. split; [exact Hcalled|exact Hcb].
Qed.

End GeneratorProperties.

Lemma receive_yields_after_on_message_witness :
  let taken :=
    Receiver.take_events Inputs.whole_seconds Inputs.trickle 2
      (Receiver.receive_generator (N := Inputs.whole_seconds) None
         (Some Samples.quiet_callback) (Some 5%Z))
      Inputs.world1 in
  taken = ([Samples.event1] ++ [Inputs.event2], snd (fst taken), snd taken) /\
  Receiver.called (Receiver.receiver (snd taken)) = [Samples.event1; Inputs.event2] /\
  Receiver.offset (Receiver.self (Receiver.receiver (snd taken))) = PyStr (lit "4184").
Proof.
  cbv zeta.
  assert (H : Receiver.take_events Inputs.whole_seconds Inputs.trickle 2
                (Receiver.receive_generator (N := Inputs.whole_seconds) None
         (Some Samples.quiet_callback) (Some 5%Z))
                Inputs.world1
              = ([Samples.event1] ++ [Inputs.event2],
                 snd (fst (Receiver.take_events Inputs.whole_seconds Inputs.trickle 2
                   (Receiver.receive_generator (N := Inputs.whole_seconds) None
         (Some Samples.quiet_callback) (Some 5%Z))
                   Inputs.world1)),
                 snd (Receiver.take_events Inputs.whole_seconds Inputs.trickle 2
                   (Receiver.receive_generator (N := Inputs.whole_seconds) None
         (Some Samples.quiet_callback) (Some 5%Z))
                   Inputs.world1))) by reflexivity.
  split; [exact H|].
  destruct (receive_yields_after_on_message Inputs.whole_seconds Inputs.trickle
              None (Some Samples.quiet_callback) (Some (5%Z : Receiver.number Inputs.whole_seconds))
              Inputs.world1 _ _
              [Samples.event1] Inputs.event2 H)
    as (before & after & event & s1 & s2 & _ & _ & _ & _ & _ & _ & _ & Hcalled & _).
  split; [exact (eq_trans Hcalled eq_refl)|reflexivity].
Defined.

(** ** PartitionPump *)

Module PumpProperties.

Import PartitionPump.

Section Properties.

Variable behaviour : list Call -> Call -> option Exn.
Variable hook_status : list Call -> Call -> option string.

(** Unfold the plumbing of the monad and read the fields of the states
    that result. *)
Ltac run :=
  cbv [bind try_except get modify ret raise on_pump processor_call context_attr
       set_pump_status process_error_async set_partition_context set_processor
       set_status own_hook];
  cbn [pump calls instances host lease pump_status partition_context processor fst snd].

(** Take a computation apart along its binds, handlers and case
    distinctions, closing the steps with [leaf]. *)
Ltac stepwise bind_rule try_rule leaf :=
  repeat first
    [ leaf | apply bind_rule | apply try_rule
    | match goal with
      | |- _ (match ?x with _ => _ end) => destruct x
      | |- forall _, _ => intro
      end ].

(** Read off the calls made from a record of calls that was extended. *)
Ltac made_by rule :=
  cbn [snd];
  erewrite rule by (cbn [calls]; rewrite <- ?app_assoc; reflexivity).

(** The calls made during a run are what the run appends to the record. *)
Lemma made_after_calls (s s' : State) (l : list Call) :
  calls s' = calls s ++ l -> made_after s s' = l.
Proof. intros H. unfold made_after. rewrite H. apply drop_app_length. Qed.

(** *** process_events_async *)

(** On a pump that holds a processor and a context, a batch whose last
    element is an event goes to the processor's events hook with the context
    already updated; if the hook raises, the error hook is called next. *)
Lemma process_events_opened (s : State) (p : ProcessorRef) (ctx : PartitionContext)
    (events : list (option EventData.t)) (event_data : EventData.t) :
  processor (pump s) = Some p ->
  partition_context (pump s) = Some ctx ->
  last events = Some (Some event_data) ->
  let ctx' := set_offset_and_sequence_number ctx event_data in
  let s1 := mkState (set_partition_context (Some ctx') (pump s))
              (calls s ++ [ProcessorProcessEvents p (Some ctx') events]) (instances s) in
  process_events_async behaviour events s =
  match behaviour (calls s) (ProcessorProcessEvents p (Some ctx') events) with
  | None => (Return tt, s1)
  | Some err => call behaviour (ProcessorProcessError p (Some ctx') err) s1
  end.
Proof.
  intros Hp Hc Hlast ctx' s1.
  destruct events as [|e0 events']; [discriminate Hlast|].
  destruct s as [[h l st pc pr] cs n]. cbn in Hp, Hc. subst pr pc.
  unfold process_events_async. rewrite Hlast. run.
  unfold call at 1. run. fold ctx'.
  destruct (behaviour cs (ProcessorProcessEvents p (Some ctx') (e0 :: events')))
    as [err|]; reflexivity.
Qed.

(** The calls of such a run start with the events hook, and the run leaves
    the updated context and the processor in place. *)
Lemma process_events_opened_calls (s : State) (p : ProcessorRef) (ctx : PartitionContext)
    (events : list (option EventData.t)) (event_data : EventData.t) :
  processor (pump s) = Some p ->
  partition_context (pump s) = Some ctx ->
  last events = Some (Some event_data) ->
  let ctx' := set_offset_and_sequence_number ctx event_data in
  let s' := snd (process_events_async behaviour events s) in
  (exists rest, calls s' = calls s ++ ProcessorProcessEvents p (Some ctx') events :: rest) /\
  partition_context (pump s') = Some ctx' /\
  processor (pump s') = Some p.
Proof.
  intros Hp Hc Hlast ctx' s'. subst s'.
  rewrite (process_events_opened s p ctx events event_data Hp Hc Hlast).
  fold ctx'.
  destruct (behaviour (calls s) (ProcessorProcessEvents p (Some ctx') events)) as [err|].
  - unfold call. cbn [calls pump instances].
    destruct (behaviour (calls s ++ [ProcessorProcessEvents p (Some ctx') events])
                (ProcessorProcessError p (Some ctx') err));
      cbn [snd calls pump partition_context processor set_partition_context];
      (split; [|split; [reflexivity|exact Hp]]);
      exists [ProcessorProcessError p (Some ctx') err];
      rewrite <- app_assoc; reflexivity.
  - cbn [snd calls pump partition_context processor set_partition_context].
    split; [|split; [reflexivity|exact Hp]]. exists []. reflexivity.
Qed.

(** C3: on a pump that holds a processor and a context, for a batch whose
    last element is an event, the first call [process_events_async] makes is
    the processor's events hook with the whole batch and with a context
    whose offset and sequence number are already those of the batch's last
    element; the pump's context holds them when the call ends. *)
Theorem process_events_updates_context_first (s : State) (p : ProcessorRef)
    (ctx : PartitionContext) (events : list (option EventData.t))
    (event_data : EventData.t) :
  processor (pump s) = Some p ->
  partition_context (pump s) = Some ctx ->
  last events = Some (Some event_data) ->
  let ctx' := set_offset_and_sequence_number ctx event_data in
  let s' := snd (process_events_async behaviour events s) in
  offset ctx' = default PyNone (EventData._annotations event_data !! "x-opt-offset") /\
  sequence_number ctx' =
    default PyNone (EventData._annotations event_data !! "x-opt-sequence-number") /\
  (exists rest, calls s' = calls s ++ ProcessorProcessEvents p (Some ctx') events :: rest) /\
  partition_context (pump s') = Some ctx'.
Proof.
  intros Hp Hc Hlast ctx' s'.
  split; [reflexivity|]. split; [reflexivity|].
  destruct (process_events_opened_calls s p ctx events event_data Hp Hc Hlast)
    as (Hcalls & Hctx & _).
  split; [exact Hcalls|exact Hctx].
Qed.

(** C10: a batch that is not empty and whose last element is [None]
    changes nothing and calls nothing. *)
Theorem process_events_last_none_noop (s : State) (events : list (option EventData.t)) :
  events <> [] ->
  last events = Some None ->
  process_events_async behaviour events s = (Return tt, s).
Proof.
  intros Hne Hlast. destruct events as [|e0 events']; [contradiction|].
  unfold process_events_async, try_except. rewrite Hlast. reflexivity.
Qed.

(** C6, as the code has it: when the processor's events hook raises,
    what it raised is passed to the processor's error hook, and these are the
    two calls [process_events_async] makes.  If the error hook returns,
    [process_events_async] returns normally; if the error hook raises,
    [process_events_async] raises what the error hook raised.  Either way
    the pump still holds its processor and its context, and the first call
    it makes for a later batch is again the events hook, with that batch. *)
Theorem process_events_swallows_hook_error (s : State) (p : ProcessorRef)
    (ctx : PartitionContext) (events : list (option EventData.t))
    (event_data : EventData.t) (err : Exn) :
  processor (pump s) = Some p ->
  partition_context (pump s) = Some ctx ->
  last events = Some (Some event_data) ->
  let ctx' := set_offset_and_sequence_number ctx event_data in
  behaviour (calls s) (ProcessorProcessEvents p (Some ctx') events) = Some err ->
  let s' := snd (process_events_async behaviour events s) in
  let answer := behaviour (calls s ++ [ProcessorProcessEvents p (Some ctx') events])
                  (ProcessorProcessError p (Some ctx') err) in
  made_after s s' = [ProcessorProcessEvents p (Some ctx') events;
                     ProcessorProcessError p (Some ctx') err] /\
  (answer = None -> fst (process_events_async behaviour events s) = Return tt) /\
  (forall err2, answer = Some err2 ->
     fst (process_events_async behaviour events s) = Raise err2) /\
  processor (pump s') = Some p /\
  partition_context (pump s') = Some ctx' /\
  pump_status (pump s') = pump_status (pump s) /\
  forall (events2 : list (option EventData.t)) (event_data2 : EventData.t),
    last events2 = Some (Some event_data2) ->
    exists rest,
      calls (snd (process_events_async behaviour events2 s')) =
      calls s' ++
      ProcessorProcessEvents p (Some (set_offset_and_sequence_number ctx' event_data2)) events2
      :: rest.
Proof.
  intros Hp Hc Hlast ctx' Hraise s' answer.
  set (s2 := mkState (set_partition_context (Some ctx') (pump s))
               ((calls s ++ [ProcessorProcessEvents p (Some ctx') events]) ++
                [ProcessorProcessError p (Some ctx') err]) (instances s)).
  assert (Hrun : process_events_async behaviour events s =
    (match answer with None => Return tt | Some err2 => Raise err2 end, s2)).
  { rewrite (process_events_opened s p ctx events event_data Hp Hc Hlast).
    fold ctx'. rewrite Hraise. unfold call. cbn [calls pump instances].
    fold answer. destruct answer; reflexivity. }
  subst s'. rewrite Hrun. cbn [fst snd].
  split; [apply made_after_calls; cbn [s2 calls]; rewrite <- app_assoc; reflexivity|].
  split; [intros ->; reflexivity|].
  split; [intros err2 ->; reflexivity|].
  split; [exact Hp|]. split; [reflexivity|]. split; [reflexivity|].
  intros events2 event_data2 Hlast2.
  destruct (process_events_opened_calls s2 p ctx' events2 event_data2 Hp eq_refl Hlast2)
    as (Hcalls & _).
  exact Hcalls.
Qed.


(** *** Computations that leave the pump's fields alone *)

Lemma leaves_pump_ret {A} (a : A) : leaves_pump (ret a).
Proof. intros s. reflexivity. Qed.

Lemma leaves_pump_raise {A} (e : Exn) : leaves_pump (@raise State A e).
Proof. intros s. reflexivity. Qed.

Lemma leaves_pump_get : leaves_pump (@get State).
Proof. intros s. reflexivity. Qed.

Lemma leaves_pump_call (c : Call) : leaves_pump (call behaviour c).
Proof. intros s. unfold call. destruct (behaviour (calls s) c); reflexivity. Qed.

Lemma leaves_pump_bind {A B} (m : M State A) (k : A -> M State B) :
  leaves_pump m -> (forall a, leaves_pump (k a)) -> leaves_pump (bind m k).
Proof.
  intros Hm Hk s. unfold bind. specialize (Hm s).
  destruct (m s) as [[a|e] s1]; cbn [snd] in *; [|exact Hm].
  rewrite (Hk a s1). exact Hm.
Qed.

Lemma leaves_pump_try {A} (body : M State A) (handler : Exn -> M State A) :
  leaves_pump body -> (forall e, leaves_pump (handler e)) ->
  leaves_pump (try_except body handler).
Proof.
  intros Hm Hk s. unfold try_except. specialize (Hm s).
  destruct (body s) as [[a|e] s1]; cbn [snd] in *; [exact Hm|].
  rewrite (Hk e s1). exact Hm.
Qed.

Lemma leaves_pump_processor_call (hook : string)
    (c : ProcessorRef -> option PartitionContext -> Call) :
  leaves_pump (processor_call behaviour hook c).
Proof.
  unfold processor_call.
  stepwise (@leaves_pump_bind) (@leaves_pump_try)
    ltac:(first [apply leaves_pump_get | apply leaves_pump_raise | apply leaves_pump_call]).
Qed.

Lemma leaves_pump_context_attr (attr : string) : leaves_pump (context_attr attr).
Proof.
  unfold context_attr.
  stepwise (@leaves_pump_bind) (@leaves_pump_try)
    ltac:(first [apply leaves_pump_get | apply leaves_pump_raise | apply leaves_pump_ret]).
Qed.

Lemma leaves_pump_process_error (err : Exn) :
  leaves_pump (process_error_async behaviour err).
Proof. apply leaves_pump_processor_call. Qed.

(** *** close_async *)

(** Take the run of a method apart along the answers of the calls it
    makes and the fields it reads. *)
Ltac by_cases :=
  repeat first
    [ progress run
    | progress unfold call
    | match goal with
      | |- context [decide ?P] => destruct (decide P)
      | |- context [match hook_status ?cs ?c with _ => _ end] =>
          destruct (hook_status cs c) eqn:?
      | |- context [match behaviour ?cs ?c with _ => _ end] =>
          destruct (behaviour cs c) eqn:?
      end ].

(** C2, as the code has it: when [close_async] returns normally the
    status is Closed; when it ends by raising, [close_async] has not set the
    status Closed: the status is the one its closing hook set, and Closing,
    which [close_async] sets on entry, when the hook set none. *)
Theorem close_status_by_outcome (s : State) (reason : string) :
  match fst (close_async behaviour hook_status reason s) with
  | Return _ =>
      pump_status (pump (snd (close_async behaviour hook_status reason s))) = "Closed"
  | Raise _ =>
      pump_status (pump (snd (close_async behaviour hook_status reason s))) =
      default "Closing" (hook_status (calls s) (OnClosing reason))
  end.
Proof.
  destruct s as [[h l st [ctx|] [p|]] cs n]; unfold close_async; cbn [calls];
    by_cases; reflexivity.
Qed.

(** C5, as the code has it: on a pump that holds a processor and a
    context, [close_async] with reason LeaseLost calls [release_lease_async]
    exactly once, with the context's lease, when the closing hook and the
    processor's close hook both return; it does not call it when one of the
    two raises; and with any other reason it does not call it. *)
Theorem close_releases_lease (s : State) (p : ProcessorRef) (ctx : PartitionContext)
    (reason : string) :
  processor (pump s) = Some p ->
  partition_context (pump s) = Some ctx ->
  let s' := snd (close_async behaviour hook_status reason s) in
  let closing := behaviour (calls s) (OnClosing reason) in
  let closed := behaviour (calls s ++ [OnClosing reason])
                  (ProcessorClose p (Some ctx) reason) in
  (reason = "LeaseLost" -> closing = None -> closed = None ->
   released (made_after s s') = [context_lease ctx]) /\
  (reason = "LeaseLost" -> closing <> None \/ closed <> None ->
   released (made_after s s') = []) /\
  (reason <> "LeaseLost" -> released (made_after s s') = []).
Proof.
  intros Hp Hc s' closing closed. subst s' closing closed.
  destruct s as [[h l st pc pr] cs n]. cbn in Hp, Hc. subst pr pc.
  cbn [calls]. unfold close_async.
  split; [|split].
  - intros -> Hclosing Hclosed.
    by_cases; try congruence; made_by made_after_calls; reflexivity.
  - intros -> Hraise.
    by_cases; try congruence; try (destruct Hraise; congruence);
      made_by made_after_calls; reflexivity.
  - intros Hreason.
    by_cases; try contradiction; made_by made_after_calls; reflexivity.
Qed.

(** *** Properties of states kept by every step *)

Section Keeps.

Variable P : State -> Prop.

Lemma keeps_ret {A} (a : A) : keeps P (ret a).
Proof. intros s Hs. exact Hs. Qed.

Lemma keeps_raise {A} (e : Exn) : keeps P (@raise State A e).
Proof. intros s Hs. exact Hs. Qed.

Lemma keeps_get : keeps P (@get State).
Proof. intros s Hs. exact Hs. Qed.

(** What is known of the value of [m] can be used for what follows it. *)
Lemma keeps_bind_value {A B} (R : A -> Prop) (m : M State A) (k : A -> M State B) :
  (forall s, P s -> P (snd (m s)) /\ forall a, fst (m s) = Return a -> R a) ->
  (forall a, R a -> keeps P (k a)) ->
  keeps P (bind m k).
Proof.
  intros Hm Hk s Hs. unfold bind. destruct (Hm s Hs) as [H1 H2].
  destruct (m s) as [[a|e] s1]; cbn [fst snd] in *; [|exact H1].
  apply (Hk a (H2 a eq_refl) s1 H1).
Qed.

Lemma keeps_bind {A B} (m : M State A) (k : A -> M State B) :
  keeps P m -> (forall a, keeps P (k a)) -> keeps P (bind m k).
Proof.
  intros Hm Hk. apply (keeps_bind_value (fun _ => True)).
  - intros s Hs. split; [exact (Hm s Hs)|trivial].
  - intros a _. apply Hk.
Qed.

Lemma keeps_try {A} (body : M State A) (handler : Exn -> M State A) :
  keeps P body -> (forall e, keeps P (handler e)) -> keeps P (try_except body handler).
Proof.
  intros Hm Hk s Hs. unfold try_except. specialize (Hm s Hs).
  destruct (body s) as [[a|e] s1]; cbn [snd] in *; [exact Hm|].
  apply (Hk e s1 Hm).
Qed.

End Keeps.

(** *** A processor that has been discarded stays out of the calls *)

Section Discarded.

Variable p : ProcessorRef.
Variable base : list Call.

Lemma discarded_call (c : Call) :
  processor_of c <> Some p -> keeps (discarded p base) (call behaviour c).
Proof.
  intros Hc s (Hi & Hp & l & Hl & Hall).
  assert (H : discarded p base (mkState (pump s) (calls s ++ [c]) (instances s))).
  { split; [exact Hi|]. split; [exact Hp|].
    exists (l ++ [c]). cbn [calls]. split; [rewrite Hl, app_assoc; reflexivity|].
    apply Forall_app. split; [exact Hall|]. constructor; [exact Hc|constructor]. }
  unfold call. destruct (behaviour (calls s) c); exact H.
Qed.

Lemma discarded_on_pump (f : t -> t) :
  (forall pm, processor pm <> Some p -> processor (f pm) <> Some p) ->
  keeps (discarded p base) (on_pump f).
Proof.
  intros Hf s (Hi & Hp & Hl). unfold on_pump, modify. cbn [snd].
  split; [exact Hi|]. split; [apply Hf, Hp|exact Hl].
Qed.

Lemma discarded_processor_call (hook : string)
    (c : ProcessorRef -> option PartitionContext -> Call) :
  (forall q ctx, processor_of (c q ctx) = Some q) ->
  keeps (discarded p base) (processor_call behaviour hook c).
Proof.
  intros Hc s Hs. unfold processor_call, bind, get.
  destruct (processor (pump s)) as [q|] eqn:Hq; [|exact Hs].
  apply discarded_call; [|exact Hs].
  rewrite Hc. destruct Hs as (_ & Hp & _). congruence.
Qed.

Lemma discarded_context_attr (attr : string) :
  keeps (discarded p base) (context_attr attr).
Proof.
  intros s Hs. unfold context_attr, bind, get.
  destruct (partition_context (pump s)); exact Hs.
Qed.

(** The factory hands out a processor other than [p]. *)
Lemma discarded_event_processor (s : State) :
  discarded p base s ->
  discarded p base (snd (event_processor behaviour s)) /\
  forall q, fst (event_processor behaviour s) = Return q -> q <> p.
Proof.
  intros Hs.
  pose proof (discarded_call EventProcessor ltac:(discriminate) s Hs) as H1.
  revert H1. unfold event_processor, bind, get, modify, ret, call.
  destruct (behaviour (calls s) EventProcessor) as [e|]; cbn [fst snd];
    intros (Hi & Hp & Hl).
  - split; [|intros q; discriminate].
    split; [exact Hi|]. split; [exact Hp|exact Hl].
  - cbn [instances pump calls] in *. split.
    + split; [cbn [instances]; lia|]. split; [exact Hp|exact Hl].
    + intros q [= <-]. lia.
Qed.

Lemma discarded_open : keeps (discarded p base) (open_async behaviour hook_status).
Proof.
  unfold open_async, process_error_async, set_pump_status.
  do 5 (apply keeps_bind;
        [stepwise (@keeps_bind) (@keeps_try)
           ltac:(first [ apply keeps_get | apply keeps_raise
                       | apply discarded_on_pump; intros pm Hpm; exact Hpm ])
        |intro]).
  apply (keeps_bind_value _ (fun q => q <> p)).
  { intros s0 Hs0. apply discarded_event_processor, Hs0. }
  intros q Hq.
  apply keeps_bind.
  { apply discarded_on_pump. intros pm _. cbn [processor set_processor]. congruence. }
  intro.
  stepwise (@keeps_bind) (@keeps_try)
    ltac:(first [ apply keeps_ret | apply keeps_get
                | apply discarded_processor_call; intros; reflexivity
                | apply discarded_call; discriminate
                | apply discarded_on_pump; intros pm Hpm; first [exact Hpm | discriminate] ]).
Qed.

(** Every method of the pump keeps a discarded processor out. *)
Lemma discarded_invoke (m : Method) : keeps (discarded p base) (invoke behaviour hook_status m).
Proof.
  destruct m; cbn [invoke]; try apply discarded_open;
    unfold set_pump_status, set_lease, is_closing, close_async, process_events_async,
      process_error_async;
    stepwise (@keeps_bind) (@keeps_try)
      ltac:(first [ apply keeps_ret | apply keeps_raise | apply keeps_get
                  | apply discarded_context_attr
                  | apply discarded_processor_call; intros; reflexivity
                  | apply discarded_call; discriminate
                  | apply discarded_on_pump; intros pm Hpm; exact Hpm ]).
Qed.

Lemma discarded_invoke_all (ms : list Method) (s : State) :
  discarded p base s -> discarded p base (invoke_all behaviour hook_status ms s).
Proof.
  unfold invoke_all. revert s.
  induction ms as [|m ms IH]; intros s Hs; [exact Hs|].
  cbn [fold_left]. apply IH, discarded_invoke, Hs.
Qed.

End Discarded.

(** *** open_async *)

(** X27: a failed open that was reported discards the processor for good.
    When the processor's open hook raises, what it raised is passed to the
    processor's error hook; the factory call and these two are the calls
    [open_async] makes.  If the error hook returns, [open_async] returns
    with status OpenFailed and without a processor, and whatever methods are
    called on the pump afterwards, no hook of that processor is called
    again, its events hook and its close hook among them. *)
Theorem failed_open_discards_processor (s : State) (err : Exn) :
  let p := instances s in
  let ctx := opened_context s in
  behaviour (calls s) EventProcessor = None ->
  behaviour (calls s ++ [EventProcessor]) (ProcessorOpen p (Some ctx)) = Some err ->
  behaviour (calls s ++ [EventProcessor; ProcessorOpen p (Some ctx)])
    (ProcessorProcessError p (Some ctx) err) = None ->
  let s1 := snd (open_async behaviour hook_status s) in
  made_after s s1 =
    [EventProcessor; ProcessorOpen p (Some ctx); ProcessorProcessError p (Some ctx) err] /\
  fst (open_async behaviour hook_status s) = Return tt /\
  pump_status (pump s1) = "OpenFailed" /\
  processor (pump s1) = None /\
  forall ms : list Method,
    calls (invoke_all behaviour hook_status ms s1) =
      calls s1 ++ made_after s1 (invoke_all behaviour hook_status ms s1) /\
    forall c : Call,
      c ∈ made_after s1 (invoke_all behaviour hook_status ms s1) ->
      processor_of c <> Some p /\
      (forall ctx2 events, c <> ProcessorProcessEvents p ctx2 events) /\
      (forall ctx2 reason, c <> ProcessorClose p ctx2 reason).
Proof.
  intros p ctx Hfactory Hopen Hreport s1.
  set (made := [EventProcessor; ProcessorOpen p (Some ctx);
                ProcessorProcessError p (Some ctx) err]).
  assert (Hrun : open_async behaviour hook_status s =
    (Return tt,
     mkState (mk (host (pump s)) (lease (pump s)) "OpenFailed" (Some ctx) None)
       (calls s ++ made) (S (instances s)))).
  { subst made p ctx. destruct s as [[h l st pc pr] cs n].
    cbn [calls instances] in *. unfold opened_context in *. cbn [pump host lease] in *.
    unfold open_async, event_processor. run. unfold call. run.
    rewrite Hfactory. run. rewrite Hopen. run.
    rewrite <- app_assoc. cbn [app]. rewrite Hreport.
    run. rewrite <- !app_assoc. reflexivity. }
  subst s1. rewrite Hrun. cbn [fst snd pump pump_status processor].
  split; [apply made_after_calls; reflexivity|].
  split; [reflexivity|]. split; [reflexivity|]. split; [reflexivity|].
  intros ms. set (s1 := mkState _ _ _).
  assert (Hs1 : discarded p (calls s1) s1).
  { split; [cbn [s1 instances]; unfold p; lia|].
    split; [discriminate|].
    exists []. split; [rewrite app_nil_r; reflexivity|constructor]. }
  destruct (discarded_invoke_all p (calls s1) ms s1 Hs1) as (_ & _ & l & Hl & Hall).
  rewrite (made_after_calls s1 _ l Hl).
  split; [exact Hl|].
  intros c Hc. rewrite Forall_forall in Hall. specialize (Hall c Hc).
  split; [exact Hall|].
  split; intros ? ? ->; apply Hall; reflexivity.
Qed.

End Properties.

(** *** The statements at concrete inputs *)

Import Samples.

Lemma process_events_updates_context_first_witness :
  processor (pump opened1) = Some 0%nat /\
  partition_context (pump opened1) = Some context1 /\
  last [None; Some event1] = Some (Some event1) /\
  partition_context (pump (snd (process_events_async all_return [None; Some event1] opened1)))
    = Some (set_offset_and_sequence_number context1 event1) /\
  offset (set_offset_and_sequence_number context1 event1) = PyStr (lit "4096").
Proof.
  split; [reflexivity|]. split; [reflexivity|]. split; [reflexivity|].
  destruct (process_events_updates_context_first all_return opened1 0%nat context1
              [None; Some event1] event1 eq_refl eq_refl eq_refl) as (Hoff & _ & _ & Hctx).
  split; [exact Hctx|]. rewrite Hoff. reflexivity.
Defined.

Lemma process_events_last_none_noop_witness :
  [Some event1; None] <> [] /\
  last [Some event1; None] = Some None /\
  process_events_async events_hook_raises [Some event1; None] opened1 = (Return tt, opened1).
Proof.
  assert (Hne : [Some event1; None] <> []) by discriminate.
  split; [exact Hne|]. split; [reflexivity|].
  exact (process_events_last_none_noop events_hook_raises opened1 [Some event1; None]
           Hne eq_refl).
Defined.

Lemma process_events_swallows_hook_error_witness :
  events_hook_raises (calls opened1)
    (ProcessorProcessEvents 0%nat (Some (set_offset_and_sequence_number context1 event1))
       [Some event1]) = Some (UserError 1) /\
  fst (process_events_async events_hook_raises [Some event1] opened1) = Return tt.
Proof.
  split; [reflexivity|].
  destruct (process_events_swallows_hook_error events_hook_raises opened1 0%nat context1
              [Some event1] event1 (UserError 1) eq_refl eq_refl eq_refl eq_refl)
    as (_ & Hreturns & _).
  exact (Hreturns eq_refl).
Defined.

Lemma close_releases_lease_witness :
  processor (pump opened1) = Some 0%nat /\
  partition_context (pump opened1) = Some context1 /\
  released (made_after opened1 (snd (close_async all_return sets_nothing "LeaseLost" opened1)))
    = [Some lease1].
Proof.
  split; [reflexivity|]. split; [reflexivity|].
  exact (proj1 (close_releases_lease all_return sets_nothing opened1 0%nat context1 "LeaseLost"
                  eq_refl eq_refl) eq_refl eq_refl eq_refl).
Defined.

Lemma failed_open_discards_processor_witness :
  open_hook_raises (calls fresh1 ++ [EventProcessor])
    (ProcessorOpen 0%nat (Some context1)) = Some (UserError 1) /\
  pump_status (pump (snd (open_async open_hook_raises sets_nothing fresh1))) = "OpenFailed" /\
  processor (pump (snd (open_async open_hook_raises sets_nothing fresh1))) = None.
Proof.
  split; [reflexivity|].
  destruct (failed_open_discards_processor open_hook_raises sets_nothing fresh1 (UserError 1)
              eq_refl eq_refl eq_refl) as (_ & _ & Hstatus & Hproc & _).
  split; [exact Hstatus|exact Hproc].
Defined.

(** *** Where the statements of the specification fail *)

(** C2 as stated fails: when the closing hook raises, [close_async] ends by
    raising and the status is Closing, not Closed. *)
Lemma close_raising_leaves_closing :
  fst (close_async closing_hook_raises sets_nothing "Shutdown" opened1) = Raise (UserError 1) /\
  pump_status (pump (snd (close_async closing_hook_raises sets_nothing "Shutdown" opened1))) = "Closing" /\
  pump_status (pump (snd (close_async closing_hook_raises sets_nothing "Shutdown" opened1))) <> "Closed".
Proof. split; [reflexivity|]. split; [reflexivity|]. discriminate. Qed.

(** C4, where the code departs from it: when the open hook raises and the
    error hook raises too, [open_async] ends by raising what the error hook
    raised, before the two statements that discard the processor and set the
    status OpenFailed: the status is Opening, the processor is still in
    place, and a later [process_events_async] calls the events hook of that
    processor. *)
Lemma failed_open_with_failing_error_hook :
  let s1 := snd (open_async open_and_error_hooks_raise sets_nothing fresh1) in
  fst (open_async open_and_error_hooks_raise sets_nothing fresh1) = Raise (UserError 2) /\
  pump_status (pump s1) = "Opening" /\
  pump_status (pump s1) <> "OpenFailed" /\
  processor (pump s1) = Some 0%nat /\
  made_after s1
    (invoke_all open_and_error_hooks_raise sets_nothing [ProcessEventsAsync [Some event1]] s1)
  = [ProcessorProcessEvents 0%nat (Some (set_offset_and_sequence_number context1 event1))
       [Some event1]].
Proof.
  cbv zeta. split; [reflexivity|]. split; [reflexivity|]. split; [discriminate|].
  split; [reflexivity|]. reflexivity.
Qed.

(** C5 as stated fails: when the closing hook raises, [close_async] with
    reason LeaseLost on an opened pump ends without any call to
    [release_lease_async]. *)
Lemma close_lease_lost_without_release :
  processor (pump opened1) = Some 0%nat /\
  released (made_after opened1 (snd (close_async closing_hook_raises sets_nothing "LeaseLost" opened1)))
  = [] /\
  length (released
    (made_after opened1 (snd (close_async closing_hook_raises sets_nothing "LeaseLost" opened1)))) <> 1%nat.
Proof. split; [reflexivity|]. split; [reflexivity|]. discriminate. Qed.

(** C6 as stated fails: when the events hook raises and the error hook
    raises too, [process_events_async] does not return normally; it raises
    what the error hook raised. *)
Lemma process_events_with_failing_error_hook :
  events_and_error_hooks_raise (calls opened1)
    (ProcessorProcessEvents 0%nat (Some (set_offset_and_sequence_number context1 event1))
       [Some event1]) = Some (UserError 1) /\
  fst (process_events_async events_and_error_hooks_raise [Some event1] opened1)
  = Raise (UserError 2) /\
  fst (process_events_async events_and_error_hooks_raise [Some event1] opened1)
  <> Return tt.
Proof. split; [reflexivity|]. split; [reflexivity|]. discriminate. Qed.

End PumpProperties.

(** ** Connection strings *)

Section Splitting.

Variable sep : N.

Lemma split_without (a : pystr) : sep ∉ a -> split sep a = [a].
Proof.
  induction a as [|c a IH]; intros Hsep; [reflexivity|].
  cbn [split]. apply not_elem_of_cons in Hsep as [Hc Ha].
  destruct (N.eqb_spec c sep) as [->|_]; [contradiction|].
  rewrite (IH Ha). reflexivity.
Qed.

Lemma split_app (a b : pystr) :
  sep ∉ a -> split sep (a ++ sep :: b) = a :: split sep b.
Proof.
  induction a as [|c a IH]; intros Hsep.
  - cbn [app split]. rewrite N.eqb_refl. reflexivity.
  - cbn [app split]. apply not_elem_of_cons in Hsep as [Hc Ha].
    destruct (N.eqb_spec c sep) as [->|_]; [contradiction|].
    rewrite (IH Ha). reflexivity.
Qed.

Lemma partition_app (a b : pystr) :
  sep ∉ a -> partition sep (a ++ sep :: b) = (a, [sep], b).
Proof.
  induction a as [|c a IH]; intros Hsep.
  - cbn [app partition]. rewrite N.eqb_refl. reflexivity.
  - cbn [app partition]. apply not_elem_of_cons in Hsep as [Hc Ha].
    destruct (N.eqb_spec c sep) as [->|_]; [contradiction|].
    rewrite (IH Ha). reflexivity.
Qed.

(** What is stripped does not end in the stripped character. *)
Lemma rstrip_last (s : pystr) : last (rstrip sep s) <> Some sep.
Proof.
  induction s as [|x s IH]; [discriminate|].
  cbn [rstrip]. destruct (rstrip sep s) as [|y r] eqn:Hr.
  - destruct (N.eqb_spec x sep) as [->|Hx]; [discriminate|].
    cbn. congruence.
  - exact IH.
Qed.

End Splitting.

Section ConnectionStringProperties.

Variable unicode_lower : pystr -> pystr.
Variable urlparse : pystr -> Checked Url.
Variable unquote_plus : pystr -> pystr.

(** A character that does not occur in a literal. *)
Ltac absent := apply (bool_decide_unpack _); vm_compute; exact I.

Lemma parse_element_endpoint (parts : Parts) (value : pystr) :
  parse_element unicode_lower parts (lit "Endpoint=" ++ value) =
  mkParts (Some (rstrip 47 value)) (shared_access_key_name parts)
    (shared_access_key parts) (entity_path parts).
Proof.
  change (lit "Endpoint=" ++ value) with (lit "Endpoint" ++ 61%N :: value).
  unfold parse_element. rewrite partition_app by absent. reflexivity.
Qed.

Lemma parse_element_key_name (parts : Parts) (value : pystr) :
  parse_element unicode_lower parts (lit "SharedAccessKeyName=" ++ value) =
  mkParts (endpoint parts) (Some value) (shared_access_key parts) (entity_path parts).
Proof.
  change (lit "SharedAccessKeyName=" ++ value)
    with (lit "SharedAccessKeyName" ++ 61%N :: value).
  unfold parse_element. rewrite partition_app by absent. reflexivity.
Qed.

Lemma parse_element_key (parts : Parts) (value : pystr) :
  parse_element unicode_lower parts (lit "SharedAccessKey=" ++ value) =
  mkParts (endpoint parts) (shared_access_key_name parts) (Some value) (entity_path parts).
Proof.
  change (lit "SharedAccessKey=" ++ value) with (lit "SharedAccessKey" ++ 61%N :: value).
  unfold parse_element. rewrite partition_app by absent. reflexivity.
Qed.

Lemma parse_element_entity (parts : Parts) (value : pystr) :
  parse_element unicode_lower parts (lit "EntityPath=" ++ value) =
  mkParts (endpoint parts) (shared_access_key_name parts) (shared_access_key parts)
    (Some value).
Proof.
  change (lit "EntityPath=" ++ value) with (lit "EntityPath" ++ 61%N :: value).
  unfold parse_element. rewrite partition_app by absent. reflexivity.
Qed.

Lemma truthy_nonempty (s : pystr) : s <> [] -> truthy (Some s) = true.
Proof. destruct s; [contradiction|reflexivity]. Qed.

(** X1: a connection string written in the usual order is read back part
    by part: the endpoint without its trailing slashes, the key name and the
    key as they are, also when they hold [=] signs, and the entity path if
    there is one; provided no part holds a semicolon and the three required
    parts are not empty. *)
Theorem parse_conn_str_reads_back (e n k : pystr) (p : option pystr) :
  59%N ∉ e -> 59%N ∉ n -> 59%N ∉ k ->
  (forall x, p = Some x -> 59%N ∉ x) ->
  rstrip 47 e <> [] -> n <> [] -> k <> [] ->
  _parse_conn_str unicode_lower
    (lit "Endpoint=" ++ e ++ lit ";SharedAccessKeyName=" ++ n
     ++ lit ";SharedAccessKey=" ++ k
     ++ match p with Some x => lit ";EntityPath=" ++ x | None => [] end)
  = Fine (mkParts (Some (rstrip 47 e)) (Some n) (Some k) p).
Proof.
  intros He Hn Hk Hp Hne Hnn Hnk.
  set (tail := match p with Some x => lit ";EntityPath=" ++ x | None => [] end).
  assert (Hsplit :
    split 59 (lit "Endpoint=" ++ e ++ lit ";SharedAccessKeyName=" ++ n
              ++ lit ";SharedAccessKey=" ++ k ++ tail)
    = (lit "Endpoint=" ++ e) :: (lit "SharedAccessKeyName=" ++ n)
      :: (lit "SharedAccessKey=" ++ k)
      :: match p with Some x => [lit "EntityPath=" ++ x] | None => [] end).
  { change (lit ";SharedAccessKeyName=" ++ n ++ lit ";SharedAccessKey=" ++ k ++ tail)
      with (59%N :: lit "SharedAccessKeyName=" ++ n
            ++ (59%N :: lit "SharedAccessKey=" ++ k ++ tail)).
    rewrite (app_assoc (lit "Endpoint=") e).
    rewrite split_app by (apply not_elem_of_app; split; [absent|exact He]).
    rewrite (app_assoc (lit "SharedAccessKeyName=") n).
    rewrite split_app by (apply not_elem_of_app; split; [absent|exact Hn]).
    do 3 f_equal. subst tail. destruct p as [x|].
    - change (lit ";EntityPath=" ++ x) with (59%N :: lit "EntityPath=" ++ x).
      rewrite (app_assoc (lit "SharedAccessKey=") k).
      rewrite split_app by (apply not_elem_of_app; split; [absent|exact Hk]).
      rewrite split_without
        by (apply not_elem_of_app; split; [absent|exact (Hp x eq_refl)]).
      reflexivity.
    - rewrite app_nil_r.
      rewrite split_without by (apply not_elem_of_app; split; [absent|exact Hk]).
      reflexivity. }
  unfold _parse_conn_str. rewrite Hsplit.
  cbn [fold_left]. rewrite parse_element_endpoint, parse_element_key_name, parse_element_key.
  cbn [endpoint shared_access_key_name shared_access_key entity_path].
  destruct p as [x|]; cbn [fold_left].
  - rewrite parse_element_entity.
    cbn [endpoint shared_access_key_name shared_access_key entity_path].
    rewrite !truthy_nonempty by assumption. reflexivity.
  - cbn [endpoint shared_access_key_name shared_access_key entity_path].
    rewrite !truthy_nonempty by assumption. reflexivity.
Qed.

(** One turn of the loop keeps the parts sourced. *)
Lemma parse_element_sourced (conn_str : pystr) (parts : Parts) (element : pystr) :
  element ∈ split 59 conn_str ->
  sourced unicode_lower conn_str parts ->
  sourced unicode_lower conn_str (parse_element unicode_lower parts element).
Proof.
  intros Hel (He & Hn & Hk & Hp). unfold parse_element.
  destruct (partition 61 element) as [[key found] value] eqn:Hpart.
  assert (Hprov : forall name, lower unicode_lower key = lit name ->
                  provides unicode_lower conn_str name value).
  { intros name Hname. exists element, key, found. repeat split; assumption. }
  repeat case_decide; unfold sourced;
    cbn [endpoint shared_access_key_name shared_access_key entity_path];
    repeat split; try assumption; intros v [= <-]; eauto.
Qed.

Lemma fold_parse_sourced (conn_str : pystr) (elements : list pystr) :
  forall parts,
  (forall element, element ∈ elements -> element ∈ split 59 conn_str) ->
  sourced unicode_lower conn_str parts ->
  sourced unicode_lower conn_str (fold_left (parse_element unicode_lower) elements parts).
Proof.
  induction elements as [|element elements IH]; intros parts Hin Hparts; [exact Hparts|].
  cbn [fold_left]. apply IH.
  - intros el Hel. apply Hin. right. exact Hel.
  - apply parse_element_sourced; [apply Hin; left|exact Hparts].
Qed.

Lemma truthy_some (o : option pystr) :
  truthy o = true -> exists v, o = Some v /\ v <> [].
Proof. destruct o as [[|c v]|]; try discriminate. intros _. eexists; split; [reflexivity|discriminate]. Qed.

(** What [_parse_conn_str] hands back when it returns. *)
Lemma parse_conn_str_fine (conn_str : pystr) (parts : Parts) :
  _parse_conn_str unicode_lower conn_str = Fine parts ->
  sourced unicode_lower conn_str parts /\
  truthy (endpoint parts) = true /\
  truthy (shared_access_key_name parts) = true /\
  truthy (shared_access_key parts) = true.
Proof.
  unfold _parse_conn_str.
  set (found := fold_left _ _ _).
  assert (Hsourced : sourced unicode_lower conn_str found).
  { apply fold_parse_sourced; [auto|].
    repeat split; intros v; discriminate. }
  destruct (truthy (endpoint found)) eqn:He; [|discriminate].
  destruct (truthy (shared_access_key_name found)) eqn:Hn; [|discriminate].
  destruct (truthy (shared_access_key found)) eqn:Hk; [|discriminate].
  cbn [andb]. intros [= <-]. repeat split; try assumption; apply Hsourced.
Qed.

(** X2: [_parse_conn_str] returns only complete results: the endpoint, the
    key name and the key it returns are each the value of an element of the
    string under that key (the key compared in lower case), none of them is
    empty, and the endpoint is that value without trailing slashes, so it
    does not end in a slash.  In particular a string without an element for
    one of the three keys is refused with ValueError. *)
Theorem parse_conn_str_complete (conn_str : pystr) :
  match _parse_conn_str unicode_lower conn_str with
  | Fine parts =>
      exists e n k,
        provides unicode_lower conn_str "endpoint" e /\
        endpoint parts = Some (rstrip 47 e) /\ rstrip 47 e <> [] /\
        last (rstrip 47 e) <> Some 47%N /\
        provides unicode_lower conn_str "sharedaccesskeyname" n /\
        shared_access_key_name parts = Some n /\ n <> [] /\
        provides unicode_lower conn_str "sharedaccesskey" k /\
        shared_access_key parts = Some k /\ k <> []
  | ValueError message => message = "Invalid connection string"
  end.
Proof.
  destruct (_parse_conn_str unicode_lower conn_str) as [parts|message] eqn:Hparse.
  - apply parse_conn_str_fine in Hparse as ((He & Hn & Hk & _) & Te & Tn & Tk).
    apply truthy_some in Te as (e' & Hee & Hne).
    apply truthy_some in Tn as (n & Hnn & Hnn').
    apply truthy_some in Tk as (k & Hkk & Hkk').
    destruct (He e' Hee) as (e & -> & Hpe).
    exists e, n, k.
    split; [exact Hpe|]. split; [exact Hee|]. split; [exact Hne|].
    split; [apply rstrip_last|].
    split; [exact (Hn n Hnn)|]. split; [exact Hnn|]. split; [exact Hnn'|].
    split; [exact (Hk k Hkk)|]. split; [exact Hkk|exact Hkk'].
  - revert Hparse. unfold _parse_conn_str.
    destruct (_ && _ && _); [discriminate|]. intros [= <-]. reflexivity.
Qed.

(** X3: [from_connection_string] raises ValueError for a string it cannot
    use, for a missing entity, or where [urlparse] refuses the endpoint or
    the address made from it, and in no other case: the client's own check
    of the credentials never fails.  Otherwise it gives a client that is not
    connected, has no handlers, and authenticates with the key name and the
    key of the string; its address is the endpoint of the string, followed
    by the entity when the endpoint has no path, and the entity is the
    entity path of the string if it has one and the [eventhub] argument
    otherwise. *)
Theorem from_connection_string_outcome (uuid conn_str : pystr) (eventhub : option pystr)
    (debug : bool) :
  match Client.from_connection_string unicode_lower urlparse unquote_plus
          uuid conn_str eventhub debug with
  | ValueError message =>
      _parse_conn_str unicode_lower conn_str = ValueError message /\
        message = "Invalid connection string" \/
      exists parts e,
        _parse_conn_str unicode_lower conn_str = Fine parts /\
        endpoint parts = Some e /\
        ((exists parsed, urlparse e = Fine parsed /\ path parsed = [] /\
            truthy (or_else (entity_path parts) eventhub) = false /\
            message = "No EventHub specified") \/
         urlparse e = ValueError message \/
         exists address,
           _build_uri urlparse e (or_else (entity_path parts) eventhub) = Fine address /\
           urlparse address = ValueError message)
  | Fine client =>
      exists parts e n k address parsed,
        _parse_conn_str unicode_lower conn_str = Fine parts /\
        endpoint parts = Some e /\
        shared_access_key_name parts = Some n /\
        shared_access_key parts = Some k /\
        _build_uri urlparse e (or_else (entity_path parts) eventhub) = Fine address /\
        urlparse address = Fine parsed /\
        Client.address client = parsed /\
        Client.auth_username (Client.auth client) = n /\
        Client.auth_password (Client.auth client) = k /\
        Client.connection client = None /\
        Client.clients client = [] /\
        Client.stopped client = false
  end.
Proof.
  unfold Client.from_connection_string.
  destruct (_parse_conn_str unicode_lower conn_str) as [parts|message] eqn:Hparse.
  - apply parse_conn_str_fine in Hparse as (_ & Te & Tn & Tk).
    destruct (truthy_some _ Te) as (e & He & _).
    destruct (truthy_some _ Tn) as (n & Hn & _).
    destruct (truthy_some _ Tk) as (k & Hk & _).
    rewrite He. cbn [format_optional].
    destruct (_build_uri urlparse e (or_else (entity_path parts) eventhub))
      as [address|message] eqn:Hbuild.
    + unfold Client.init.
      destruct (urlparse address) as [parsed|message] eqn:Hurl.
      * unfold or_else. rewrite Tn, Tk. cbv iota. rewrite Tn, Tk.
        cbn [negb orb]. cbv iota.
        exists parts, e, n, k, address, parsed. rewrite Hn, Hk.
        repeat split; try assumption.
      * right. exists parts, e. split; [reflexivity|]. split; [exact He|].
        right. right. exists address. split; [exact Hbuild|exact Hurl].
    + right. exists parts, e. split; [reflexivity|]. split; [exact He|].
      revert Hbuild. unfold _build_uri.
      destruct (urlparse e) as [parsed|m] eqn:Hurl;
        [|intros [= <-]; right; left; reflexivity].
      destruct (path parsed) eqn:Hpath; [|intros H; discriminate H].
      destruct (truthy (or_else (entity_path parts) eventhub)) eqn:Hentity;
        [intros H; discriminate H|].
      intros [= <-]. left. exists parsed. repeat split; assumption.
  - left. split; [reflexivity|].
    revert Hparse. unfold _parse_conn_str.
    destruct (_ && _ && _); [intros H; discriminate H|]. intros [= <-]. reflexivity.
Qed.

End ConnectionStringProperties.

Lemma parse_conn_str_reads_back_witness :
  _parse_conn_str Inputs.no_unicode_lower
    (lit "Endpoint=" ++ Inputs.endpoint1 ++ lit ";SharedAccessKeyName=" ++ Inputs.key_name1
     ++ lit ";SharedAccessKey=" ++ Inputs.key1 ++ lit ";EntityPath=" ++ Inputs.entity1)
  = Fine (mkParts (Some (lit "sb://ns.servicebus.windows.net")) (Some Inputs.key_name1)
            (Some Inputs.key1) (Some Inputs.entity1)).
Proof.
  apply (parse_conn_str_reads_back Inputs.no_unicode_lower Inputs.endpoint1
           Inputs.key_name1 Inputs.key1 (Some Inputs.entity1)).
  - apply (bool_decide_unpack _). vm_compute. exact I.
  - apply (bool_decide_unpack _). vm_compute. exact I.
  - apply (bool_decide_unpack _). vm_compute. exact I.
  - intros x [= <-]. apply (bool_decide_unpack _). vm_compute. exact I.
  - discriminate.
  - discriminate.
  - discriminate.
Defined.

(** ** EventHubClient: the connection and the registered handlers *)

Module ClientBehaviour.

Import Client.

Section Behaviour.

Variable amqp_long : Z -> option Exn.
Variable behaviour : list Call -> Call -> option Exn.

Lemma client_made_after_calls (s s' : State) (l : list Call) :
  calls s' = calls s ++ l -> made_after s s' = l.
Proof. intros H. unfold made_after. rewrite H. apply drop_app_length. Qed.

(** *** The loops over the handlers *)

Section Loop.

(** The loop body makes one call for its handler; which call may depend on
    the client. *)
Variable body : Handler -> M State unit.
Variable the_call : t -> Handler -> Call.
Hypothesis body_calls : forall h s, body h s = call behaviour (the_call (self s) h) s.

(** When the call returns for every handler, the loop makes the calls in
    the order of the list and returns. *)
Lemma for_each_returns (l : list Handler) :
  forall s,
  (forall log h, h ∈ l -> behaviour log (the_call (self s) h) = None) ->
  for_each body l s =
  (Return tt, mkState (self s) (calls s ++ map (the_call (self s)) l) (connections s)).
Proof.
  induction l as [|h l IH]; intros s Hquiet.
  - cbn. rewrite app_nil_r. destruct s; reflexivity.
  - cbn [for_each]. unfold bind. rewrite body_calls. unfold call.
    rewrite (Hquiet (calls s) h) by left.
    rewrite IH by (cbn [self]; intros log h' Hh'; apply Hquiet; right; exact Hh').
    cbn [self calls connections map]. rewrite <- app_assoc. reflexivity.
Qed.

(** When the call raises for a handler and returned for those before it,
    the loop ends there by raising. *)
Lemma for_each_raises (before after : list Handler) (h : Handler) (e : Exn) :
  forall s,
  (forall log h', h' ∈ before -> behaviour log (the_call (self s) h') = None) ->
  behaviour (calls s ++ map (the_call (self s)) before) (the_call (self s) h) = Some e ->
  for_each body (before ++ h :: after) s =
  (Raise e,
   mkState (self s) (calls s ++ map (the_call (self s)) before ++ [the_call (self s) h])
     (connections s)).
Proof.
  induction before as [|h0 before IH]; intros s Hquiet Hraise.
  - cbn [app for_each map] in *. rewrite app_nil_r in Hraise.
    unfold bind. rewrite body_calls. unfold call. rewrite Hraise. reflexivity.
  - cbn [app for_each]. unfold bind. rewrite body_calls. unfold call.
    rewrite (Hquiet (calls s) h0) by left.
    rewrite IH.
    + cbn [self calls connections map]. rewrite <- app_assoc. reflexivity.
    + cbn [self]. intros log h' Hh'. apply Hquiet. right. exact Hh'.
    + cbn [self calls map] in *. rewrite <- app_assoc. exact Hraise.
Qed.

End Loop.

Lemma open_body_calls (h : Handler) (s : State) :
  (let* s0 := get in call behaviour (HandlerOpen h (connection (self s0))))%py s =
  call behaviour ((fun x h => HandlerOpen h (connection x)) (self s) h) s.
Proof. reflexivity. Qed.

Lemma close_body_calls (h : Handler) (s : State) :
  call behaviour (HandlerClose h) s =
  call behaviour ((fun (_ : t) h => HandlerClose h) (self s) h) s.
Proof. reflexivity. Qed.

(** *** run and stop *)

(** What [run] does when the transport answers every call it makes. *)
Lemma run_returns (s : State) :
  (connection (self s) = None -> behaviour (calls s) (connection_new s) = None) ->
  (forall log h c, behaviour log (HandlerOpen h c) = None) ->
  run behaviour s =
  (Return tt,
   mkState (set_connection (Some (connection_after_run s)) (self s))
     (calls s
      ++ match connection (self s) with Some _ => [] | None => [connection_new s] end
      ++ map (fun h => HandlerOpen h (Some (connection_after_run s))) (clients (self s)))
     (match connection (self s) with Some _ => connections s | None => S (connections s) end)).
Proof.
  intros Hnew Hopen. unfold run, connection_after_run, connection_new in *.
  destruct s as [[cid addr au conn dbg cl st] log n].
  cbn [self calls connections connection address auth container_id debug] in *.
  unfold bind at 1. unfold _create_connection, bind at 1, get at 1.
  cbn [self connection].
  destruct conn as [c|].
  - unfold ret at 1. unfold bind, get.
    rewrite (for_each_returns _ _ open_body_calls) by (intros; apply Hopen).
    reflexivity.
  - unfold bind at 1, call at 1. cbn [calls self address auth container_id debug].
    rewrite (Hnew eq_refl). unfold modify. unfold bind, get.
    rewrite (for_each_returns _ _ open_body_calls) by (intros; apply Hopen).
    cbn [self calls connections clients connection set_connection].
    rewrite <- app_assoc. reflexivity.
Qed.

(** What [stop] does when the transport answers every call it makes. *)
Lemma stop_returns (s : State) :
  (forall log h, behaviour log (HandlerClose h) = None) ->
  (forall log c, behaviour log (ConnectionDestroy c) = None) ->
  stop behaviour s =
  (Return tt,
   mkState (set_connection None (set_stopped true (self s)))
     (calls s ++ map HandlerClose (clients (self s))
      ++ match connection (self s) with Some c => [ConnectionDestroy c] | None => [] end)
     (connections s)).
Proof.
  intros Hclose Hdestroy. unfold stop.
  destruct s as [[cid addr au conn dbg cl st] log n]. cbn [self calls connections] in *.
  unfold bind at 1, on_self at 1, modify at 1.
  unfold bind at 1, _close_clients, bind at 1, get at 1.
  cbn [self clients set_stopped].
  rewrite (for_each_returns _ _ close_body_calls) by (intros; apply Hclose).
  cbn [self calls connections]. unfold _close_connection, bind at 1, get at 1.
  cbn [self connection set_stopped].
  destruct conn as [c|].
  - unfold bind, call. cbn [calls]. rewrite Hdestroy.
    unfold on_self, modify. cbn [self calls connections set_connection].
    rewrite <- app_assoc. reflexivity.
  - unfold ret. rewrite app_nil_r. reflexivity.
Qed.

(** X4: when the transport answers, [run] makes a connection only if the
    client holds none, then opens every registered handler once, in the
    order of registration, each on the connection the client holds
    afterwards; the handlers stay registered and [stopped] is not
    touched. *)
Theorem run_opens_every_handler (s : State) :
  (connection (self s) = None -> behaviour (calls s) (connection_new s) = None) ->
  (forall log h c, behaviour log (HandlerOpen h c) = None) ->
  let s' := snd (run behaviour s) in
  fst (run behaviour s) = Return tt /\
  made_after s s' =
    match connection (self s) with Some _ => [] | None => [connection_new s] end
    ++ map (fun h => HandlerOpen h (Some (connection_after_run s))) (clients (self s)) /\
  connection (self s') = Some (connection_after_run s) /\
  clients (self s') = clients (self s) /\
  stopped (self s') = stopped (self s).
Proof.
  intros Hnew Hopen. cbv zeta. rewrite (run_returns s Hnew Hopen). cbn [fst snd].
  split; [reflexivity|]. split; [apply client_made_after_calls; reflexivity|].
  repeat split.
Qed.

(** X5: when the transport answers, [stop] closes every registered handler
    once, in the order of registration, and after that destroys the
    connection if the client holds one; it leaves the client without a
    connection and marked stopped, with its handlers still registered. *)
Theorem stop_closes_then_destroys (s : State) :
  (forall log h, behaviour log (HandlerClose h) = None) ->
  (forall log c, behaviour log (ConnectionDestroy c) = None) ->
  let s' := snd (stop behaviour s) in
  fst (stop behaviour s) = Return tt /\
  made_after s s' =
    map HandlerClose (clients (self s))
    ++ match connection (self s) with Some c => [ConnectionDestroy c] | None => [] end /\
  connection (self s') = None /\
  stopped (self s') = true /\
  clients (self s') = clients (self s).
Proof.
  intros Hclose Hdestroy. cbv zeta. rewrite (stop_returns s Hclose Hdestroy). cbn [fst snd].
  split; [reflexivity|]. split; [apply client_made_after_calls; reflexivity|].
  repeat split.
Qed.

(** X6: when closing a handler raises, [stop] ends there: the handlers
    registered after it are not closed, the connection is not destroyed and
    the client goes on holding it, while it is already marked stopped. *)
Theorem stop_failure_keeps_connection (s : State) (before after : list Handler)
    (h : Handler) (e : Exn) :
  clients (self s) = before ++ h :: after ->
  (forall log h', h' ∈ before -> behaviour log (HandlerClose h') = None) ->
  behaviour (calls s ++ map HandlerClose before) (HandlerClose h) = Some e ->
  let s' := snd (stop behaviour s) in
  fst (stop behaviour s) = Raise e /\
  made_after s s' = map HandlerClose before ++ [HandlerClose h] /\
  connection (self s') = connection (self s) /\
  stopped (self s') = true.
Proof.
  intros Hclients Hquiet Hraise.
  assert (Hrun : stop behaviour s =
    (Raise e,
     mkState (set_stopped true (self s))
       (calls s ++ map HandlerClose before ++ [HandlerClose h]) (connections s))).
  { unfold stop.
    destruct s as [[cid addr au conn dbg cl st] log n]. cbn [self calls clients] in *.
    subst cl.
    unfold bind at 1, on_self at 1, modify at 1.
    unfold bind at 1, _close_clients, bind at 1, get at 1.
    cbn [self clients set_stopped].
    rewrite (for_each_raises _ _ close_body_calls before after h e)
      by (cbn [self calls]; assumption).
    reflexivity. }
  cbv zeta. rewrite Hrun. cbn [fst snd].
  split; [reflexivity|]. split; [apply client_made_after_calls; reflexivity|].
  repeat split.
Qed.

(** X7: a stopped client can be run again: when the transport answers
    every call, [stop] followed by [run] closes the handlers, destroys the
    old connection if there was one, makes a new connection and opens the
    same handlers on it; the client stays marked stopped. *)
Theorem stop_then_run_reconnects (s : State) :
  (forall log c, behaviour log c = None) ->
  let s' := invoke_all amqp_long behaviour [Stop; Run] s in
  made_after s s' =
    map HandlerClose (clients (self s))
    ++ match connection (self s) with Some c => [ConnectionDestroy c] | None => [] end
    ++ [connection_new s]
    ++ map (fun h => HandlerOpen h (Some (connections s))) (clients (self s)) /\
  connection (self s') = Some (connections s) /\
  stopped (self s') = true /\
  clients (self s') = clients (self s).
Proof.
  intros Hquiet. cbv zeta. unfold invoke_all. cbn [fold_left invoke].
  rewrite (stop_returns s) by (intros; apply Hquiet). cbn [snd].
  rewrite run_returns by (intros; apply Hquiet).
  cbn [snd self calls connections connection set_connection set_stopped clients].
  unfold connection_after_run, connection_new.
  cbn [self calls connections connection set_connection set_stopped clients
       address auth container_id debug].
  split; [apply client_made_after_calls; cbn [calls]; rewrite <- !app_assoc; reflexivity|].
  repeat split.
Qed.

(** *** Registering handlers *)

(** X8: [add_receiver] registers nothing when the offset's selector raises,
    which it always does for a [datetime] offset: the call raises what the
    selector raised and leaves the client as it was.  When it returns, it
    has appended exactly one handler, made for the partition's address with
    the offset's filter set on its source (no filter without an offset),
    without any call to the transport. *)
Theorem add_receiver_registers_or_raises (s : State) (consumer_group partition : pystr)
    (offset : option Offset.t) (prefetch : option Z) :
  let r := add_receiver consumer_group partition offset prefetch s in
  let source_url :=
    lit "amqps://" ++ format_optional (hostname (address (self s)))
    ++ path (address (self s)) ++ lit "/ConsumerGroups/" ++ consumer_group
    ++ lit "/Partitions/" ++ partition in
  (forall e, fst r = Raise e ->
     snd r = s /\ exists o, offset = Some o /\ Offset.selector o = Raise e) /\
  (forall handler, fst r = Return handler ->
     exists filter,
       match offset with
       | None => filter = None
       | Some o => exists b, Offset.selector o = Return b /\ filter = Some b
       end /\
       self (snd r) =
         set_clients
           (clients (self s)
            ++ [mkHandler (length (clients (self s)))
                  (ReceiveClient (SourceObject source_url filter) (auth (self s))
                     (debug (self s)) (default 300%Z prefetch) None 0)])
           (self s) /\
       calls (snd r) = calls s) /\
  (forall micros incl,
     offset = Some (Offset.mk (Offset.OffDatetime micros) incl) ->
     fst r = Raise (NameError "timestamp")).
Proof.
  cbv zeta. unfold add_receiver, bind at 1, get at 1.
  destruct offset as [o|].
  - destruct (Offset.selector o) as [b|e0] eqn:Hsel.
    + split; [intros e; discriminate|]. split.
      * intros handler _. exists (Some b). split; [eauto|]. split; reflexivity.
      * intros micros incl [= ->]. discriminate Hsel.
    + split; [|split].
      * intros e [= <-]. split; [reflexivity|eauto].
      * intros handler; discriminate.
      * intros micros incl [= ->]. cbn in Hsel. injection Hsel as <-. reflexivity.
  - split; [intros e; discriminate|]. split.
    + intros handler _. exists None. split; [reflexivity|]. split; reflexivity.
    + intros micros incl; discriminate.
Qed.

(** *** Handlers are never unregistered *)

Lemma call_keeps_self (c : Call) (s : State) : self (snd (call behaviour c s)) = self s.
Proof. unfold call. destruct (behaviour (calls s) c); reflexivity. Qed.

Lemma for_each_keeps_self (body : Handler -> M State unit) (l : list Handler) :
  (forall h s, self (snd (body h s)) = self s) ->
  forall s, self (snd (for_each body l s)) = self s.
Proof.
  intros Hbody. induction l as [|h l IH]; intros s; [reflexivity|].
  cbn [for_each]. unfold bind. specialize (Hbody h s).
  destruct (body h s) as [[[]|e] s1]; cbn [snd] in *; [|exact Hbody].
  rewrite IH. exact Hbody.
Qed.

Lemma run_keeps_clients (s : State) :
  clients (self (snd (run behaviour s))) = clients (self s).
Proof.
  unfold run, bind at 1.
  assert (Hcreate : clients (self (snd (_create_connection behaviour s))) = clients (self s)).
  { unfold _create_connection, bind at 1, get at 1.
    destruct (connection (self s)); [reflexivity|].
    unfold bind, call, modify. destruct (behaviour _ _); reflexivity. }
  destruct (_create_connection behaviour s) as [[[]|e] s1]; cbn [snd] in *;
    [|exact Hcreate].
  unfold bind, get. rewrite for_each_keeps_self; [exact Hcreate|].
  intros h s2. apply call_keeps_self.
Qed.

Lemma stop_keeps_clients (s : State) :
  clients (self (snd (stop behaviour s))) = clients (self s).
Proof.
  unfold stop, bind at 1, on_self at 1, modify at 1.
  set (s0 := mkState _ _ _).
  change (clients (self s)) with (clients (self s0)).
  unfold bind at 1.
  assert (Hclose : self (snd (_close_clients behaviour s0)) = self s0).
  { unfold _close_clients, bind, get. apply for_each_keeps_self.
    intros h s2. apply call_keeps_self. }
  destruct (_close_clients behaviour s0) as [[[]|e] s1]; cbn [snd] in *;
    [|rewrite Hclose; reflexivity].
  rewrite <- Hclose.
  unfold _close_connection, bind at 1, get at 1.
  destruct (connection (self s1)); [|reflexivity].
  unfold bind, call, on_self, modify. destruct (behaviour _ _); reflexivity.
Qed.

Lemma invoke_keeps_registered (m : Method) (s : State) :
  clients (self s) `prefix_of` clients (self (snd (invoke amqp_long behaviour m s))).
Proof.
  destruct m; cbn [invoke].
  - rewrite run_keeps_clients. reflexivity.
  - rewrite stop_keeps_clients. reflexivity.
  - unfold add_sender, bind, get, register, on_self, modify, ret. cbn.
    apply prefix_app_r. reflexivity.
  - unfold add_receiver, bind at 1, get at 1, bind at 1.
    destruct offset as [o|]; [destruct (Offset.selector o)|];
      unfold bind, ret, raise, register, on_self, modify; cbn;
      first [apply prefix_app_r; reflexivity | reflexivity].
  - unfold add_epoch_receiver, bind, get, register, on_self, modify, ret, raise.
    destruct (decide (epoch = 0%Z)); [|destruct (amqp_long epoch)]; cbn;
      first [apply prefix_app_r; reflexivity | reflexivity].
Qed.

(** X9: no method unregisters a handler: after any sequence of [run],
    [stop] and the three [add_...] methods, however each call ended, the
    handlers registered before are still registered, in the same order and
    ahead of the ones added since. *)
Theorem handlers_stay_registered (ms : list Method) (s : State) :
  clients (self s) `prefix_of` clients (self (invoke_all amqp_long behaviour ms s)).
Proof.
  unfold invoke_all. revert s.
  induction ms as [|m ms IH]; intros s; [reflexivity|].
  cbn [fold_left]. etrans; [apply (invoke_keeps_registered m)|apply IH].
Qed.

End Behaviour.

(** *** The statements at concrete inputs *)

Import Inputs.

Lemma run_opens_every_handler_witness :
  made_after client2 (snd (run all_answer client2)) =
    [connection_new client2; HandlerOpen sender_handler (Some 0%nat);
     HandlerOpen receiver_handler (Some 0%nat)] /\
  connection (self (snd (run all_answer client2))) = Some 0%nat.
Proof.
  destruct (run_opens_every_handler all_answer client2
              (fun _ => eq_refl) (fun _ _ _ => eq_refl)) as (_ & Hmade & Hconn & _).
  split; [exact Hmade|exact Hconn].
Defined.

Lemma stop_closes_then_destroys_witness :
  made_after (snd (run all_answer client2))
    (snd (stop all_answer (snd (run all_answer client2)))) =
    [HandlerClose sender_handler; HandlerClose receiver_handler; ConnectionDestroy 0%nat] /\
  connection (self (snd (stop all_answer (snd (run all_answer client2))))) = None.
Proof.
  destruct (stop_closes_then_destroys all_answer (snd (run all_answer client2))
              (fun _ _ => eq_refl) (fun _ _ => eq_refl)) as (_ & Hmade & Hconn & _).
  split; [exact Hmade|exact Hconn].
Defined.

Lemma stop_failure_keeps_connection_witness :
  clients (self (snd (run all_answer client2))) = [sender_handler] ++ receiver_handler :: [] /\
  fst (stop second_close_raises (snd (run all_answer client2))) = Raise (UserError 7) /\
  connection (self (snd (stop second_close_raises (snd (run all_answer client2)))))
    = Some 0%nat.
Proof.
  split; [reflexivity|].
  assert (Hbefore : forall (log : list Call) (h' : Handler),
            h' ∈ [sender_handler] -> second_close_raises log (HandlerClose h') = None).
  { intros log h' Hh'. apply list_elem_of_singleton in Hh'. rewrite Hh'. reflexivity. }
  destruct (stop_failure_keeps_connection second_close_raises (snd (run all_answer client2))
              [sender_handler] [] receiver_handler (UserError 7) eq_refl Hbefore eq_refl)
    as (Hfst & _ & Hconn & _).
  split; [exact Hfst|exact Hconn].
Defined.

Lemma stop_then_run_reconnects_witness :
  connection (self (snd (run all_answer client2))) = Some 0%nat /\
  connection (self (invoke_all int64_only all_answer [Stop; Run] (snd (run all_answer client2))))
    = Some 1%nat /\
  stopped (self (invoke_all int64_only all_answer [Stop; Run] (snd (run all_answer client2)))) = true.
Proof.
  split; [reflexivity|].
  destruct (stop_then_run_reconnects int64_only all_answer (snd (run all_answer client2))
              (fun _ _ => eq_refl)) as (_ & Hconn & Hstopped & _).
  split; [exact Hconn|exact Hstopped].
Defined.

End ClientBehaviour.

(** ** Sender: when no outcome is reported *)

(** X10: [send] does not clear the recorded outcome: when the transport
    returns without reporting an outcome for the message, [send] decides by
    the outcome recorded before, returning normally after an earlier Ok and
    raising EventHubError with the earlier outcome and condition otherwise
    (with None and None on a new sender), and it leaves the record as it
    was. *)
Theorem send_decides_by_earlier_outcome (transport : Message -> Sender.Submit)
    (event_data : EventData.t) (message : Message) (s : Sender.t) :
  EventData.message event_data = Some message ->
  Sender.completions (transport message) = [] ->
  Sender.submit_raises (transport message) = None ->
  snd (Sender.send transport event_data s) = s /\
  fst (Sender.send transport event_data s) =
    (if decide (Sender._outcome s = Some Ok) then Return tt
     else Raise (EventHubError (Sender._outcome s) (Sender._condition s))) /\
  fst (Sender.send transport event_data Sender.init) = Raise (EventHubError None PyNone).
Proof.
  intros Hm Hnone Hreturns.
  assert (Hsend : forall s0, Sender.send transport event_data s0 =
    (if decide (Sender._outcome s0 = Some Ok) then Return tt
     else Raise (EventHubError (Sender._outcome s0) (Sender._condition s0)), s0)).
  { intros s0. unfold Sender.send. rewrite Hm.
    unfold Sender.send_message, bind. rewrite Hnone, Hreturns.
    cbn [Sender.run_completions]. unfold ret, get.
    destruct (decide (Sender._outcome s0 ≠ Some Ok)) as [Hne|Heq].
    - unfold Sender._error. rewrite !decide_False by exact Hne. reflexivity.
    - apply dec_stable in Heq. rewrite decide_True by exact Heq. reflexivity. }
  rewrite !Hsend. cbn [fst snd]. repeat split.
Qed.

Lemma send_decides_by_earlier_outcome_witness :
  EventData.message Samples.event1 = Some Samples.message1 /\
  Sender.completions (Inputs.silent_transport Samples.message1) = [] /\
  fst (Sender.send Inputs.silent_transport Samples.event1 Inputs.failed_sender) =
    Raise (EventHubError (Some Failed) (PyStr (lit "amqp:internal-error"))).
Proof.
  split; [reflexivity|]. split; [reflexivity|].
  destruct (send_decides_by_earlier_outcome Inputs.silent_transport Samples.event1
              Samples.message1 Inputs.failed_sender eq_refl eq_refl eq_refl)
    as (_ & Hfst & _).
  exact Hfst.
Defined.

(** X11: an event made without a body, or with an empty one, cannot be
    sent: [send] raises AttributeError for the missing message before
    anything is submitted, and the sender's record is untouched. *)
Theorem send_event_without_body (transport : Message -> Sender.Submit)
    (body : option bytes) (s : Sender.t) :
  body = None \/ body = Some "" ->
  Sender.send transport (EventData.init body) s = (Raise (AttributeError "message"), s).
Proof. intros [-> | ->]; reflexivity. Qed.

Lemma send_event_without_body_witness :
  Sender.send Samples.ok_transport (EventData.init (Some "")) Sender.init =
  (Raise (AttributeError "message"), Sender.init).
Proof.
  apply (send_event_without_body Samples.ok_transport (Some "") Sender.init).
  right. reflexivity.
Defined.

(** ** Receiver: failing callbacks, counting, and the resumption filter *)

(** X12: an event whose callback raises is counted as delivered but does not
    move the offset: [on_message] raises what the callback raised, with
    [delivered] one higher, the callback called once with the wrapped event,
    and [offset] as it was. *)
Theorem on_message_callback_raises (s : Receiver.State) (event : Message)
    (cb : Receiver.Callback) (err : Exn) :
  Receiver._callback (Receiver.self s) = Some cb ->
  cb (Receiver.called s) (EventData.create event) = Some err ->
  let s' := snd (Receiver.on_message event s) in
  fst (Receiver.on_message event s) = Raise err /\
  Receiver.offset (Receiver.self s') = Receiver.offset (Receiver.self s) /\
  Receiver.delivered (Receiver.self s') = (Receiver.delivered (Receiver.self s) + 1)%Z /\
  Receiver.called s' = Receiver.called s ++ [EventData.create event].
Proof.
  intros Hcb Hraise. cbv zeta.
  unfold Receiver.on_message, bind, get, Receiver.on_self, modify, ret.
  cbn [Receiver.self Receiver._callback Receiver.set_delivered].
  rewrite Hcb. unfold Receiver.call_callback. cbn [Receiver.called Receiver.self].
  rewrite Hraise. repeat split.
Qed.

(** A fetch that is handed back whole has counted every message. *)
Lemma receive_message_batch_counts (fetched : list Message) :
  forall (s s' : Receiver.State) (evs : list EventData.t),
  Receiver.receive_message_batch Receiver.on_message fetched s = (Return evs, s') ->
  Receiver.delivered (Receiver.self s') =
  (Receiver.delivered (Receiver.self s) + Z.of_nat (length fetched))%Z.
Proof.
  induction fetched as [|m ms IH]; intros s s' evs.
  - cbn. intros [= _ <-]. lia.
  - cbn [Receiver.receive_message_batch]. unfold bind at 1.
    destruct (Receiver.on_message m s) as [[e|x] s1] eqn:H1; [|discriminate].
    unfold bind at 1.
    destruct (Receiver.receive_message_batch Receiver.on_message ms s1)
      as [[es|x] s2] eqn:H2; [|discriminate].
    unfold ret. intros [= _ <-].
    apply on_message_returned in H1 as [_ ->].
    rewrite (IH _ _ _ H2). cbn [Receiver.self Receiver.delivered Receiver.set_offset
      Receiver.set_delivered length]. lia.
Qed.

(** X13: a batch [receive] that returns has wrapped every fetched message,
    in order, has raised [delivered] by their number, keeps the callback it
    was given, and leaves as [offset] the offset annotation of the last
    fetched message, or the offset it had when nothing was fetched. *)
Theorem receive_batch_summary (callback : option Receiver.Callback)
    (fetched : list Message) (s s' : Receiver.State) (evs : list EventData.t) :
  Receiver.receive callback fetched s = (Return evs, s') ->
  evs = map EventData.create fetched /\
  Receiver.delivered (Receiver.self s') =
    (Receiver.delivered (Receiver.self s) + Z.of_nat (length fetched))%Z /\
  Receiver._callback (Receiver.self s') = callback /\
  Receiver.offset (Receiver.self s') =
    match last fetched with
    | Some m => default PyNone (message_annotations m !! "x-opt-offset")
    | None => Receiver.offset (Receiver.self s)
    end.
Proof.
  unfold Receiver.receive, bind at 1. unfold Receiver.on_self at 1, modify at 1.
  intros H.
  pose proof (receive_message_batch_counts _ _ _ _ H) as Hcount.
  apply receive_message_batch_yields in H as (He & _ & Hcb & Hoff).
  split; [exact He|]. split; [exact Hcount|]. split; [exact Hcb|exact Hoff].
Qed.

(** X14: the resumption filter follows the last event handed back: before
    any event [selector] gives back the fallback; after [on_message] has
    handed back an event it gives the filter for offsets strictly after that
    event's offset annotation when the annotation is a string, the
    enqueued-time filter when it is an integer, and the fallback again when
    the event has no offset annotation. *)
Theorem selector_follows_last_event (fallback : Offset.t) (s s' : Receiver.State)
    (event : Message) (event_data : EventData.t) :
  Receiver.on_message event s = (Return event_data, s') ->
  Receiver.selector fallback (Receiver.init None None) = Return (inr fallback) /\
  Receiver.selector fallback (Receiver.self s') =
    match message_annotations event !! "x-opt-offset" with
    | None | Some PyNone => Return (inr fallback)
    | Some (PyInt n) =>
        Return (inl ("amqp.annotation.x-opt-enqueued-time > '" +:+ decimal n +:+ "'"))
    | Some (PyStr t) =>
        match Utf8.encode_utf8 t with
        | Return b => Return (inl ("amqp.annotation.x-opt-offset > '" +:+ b +:+ "'"))
        | Raise e => Raise e
        end
    | Some (PyBytes b) =>
        match Utf8.encode_utf8 (repr_bytes b) with
        | Return r => Return (inl ("amqp.annotation.x-opt-offset > '" +:+ r +:+ "'"))
        | Raise e => Raise e
        end
    end.
Proof.
  intros H. split; [reflexivity|].
  apply on_message_returned in H as [-> ->].
  unfold Receiver.selector.
  cbn [Receiver.self Receiver.offset Receiver.set_offset Receiver.set_delivered].
  unfold EventData.offset, EventData.create, dict_get, EventData.PROP_OFFSET.
  cbn [EventData._annotations]. unfold bytes in *.
  match goal with
  | |- context [@lookup ?K ?V ?M ?I ?k ?m] =>
      destruct (@lookup K V M I k m) as [[|n|t|b]|]
  end;
    cbv [from_option id]; unfold Offset.init; cbv [from_option id];
    rewrite ?selector_int, ?selector_str; try reflexivity.
  - destruct (Utf8.encode_utf8 t); reflexivity.
  - destruct (Utf8.encode_utf8 (repr_bytes b)); reflexivity.
Qed.

Lemma on_message_callback_raises_witness :
  Receiver._callback (Receiver.self Inputs.receiver2) = Some Inputs.raising_callback /\
  fst (Receiver.on_message Samples.message1 Inputs.receiver2) = Raise (UserError 3) /\
  Receiver.offset (Receiver.self (snd (Receiver.on_message Samples.message1 Inputs.receiver2)))
    = PyNone.
Proof.
  split; [reflexivity|].
  destruct (on_message_callback_raises Inputs.receiver2 Samples.message1
              Inputs.raising_callback (UserError 3) eq_refl eq_refl)
    as (Hfst & Hoffset & _).
  split; [exact Hfst|exact Hoffset].
Defined.

Lemma receive_batch_summary_witness :
  Receiver.receive (Some Samples.quiet_callback) [Inputs.bare_message; Samples.message1]
    (Receiver.mkState (Receiver.init None None) []) =
  (Return [EventData.create Inputs.bare_message; Samples.event1],
   snd (Receiver.receive (Some Samples.quiet_callback)
          [Inputs.bare_message; Samples.message1]
          (Receiver.mkState (Receiver.init None None) []))) /\
  Receiver.delivered (Receiver.self
    (snd (Receiver.receive (Some Samples.quiet_callback)
            [Inputs.bare_message; Samples.message1]
            (Receiver.mkState (Receiver.init None None) [])))) = 2%Z.
Proof.
  assert (H : Receiver.receive (Some Samples.quiet_callback)
                [Inputs.bare_message; Samples.message1]
                (Receiver.mkState (Receiver.init None None) []) =
    (Return [EventData.create Inputs.bare_message; Samples.event1],
     snd (Receiver.receive (Some Samples.quiet_callback)
            [Inputs.bare_message; Samples.message1]
            (Receiver.mkState (Receiver.init None None) [])))) by reflexivity.
  split; [exact H|].
  destruct (receive_batch_summary _ _ _ _ _ H) as (_ & Hcount & _).
  exact Hcount.
Defined.

Lemma selector_follows_last_event_witness :
  Receiver.on_message Samples.message1 Samples.receiver1 =
    (Return Samples.event1, snd (Receiver.on_message Samples.message1 Samples.receiver1)) /\
  Receiver.selector (Offset.init (Offset.OffStr (lit "-1")) None)
    (Receiver.self (snd (Receiver.on_message Samples.message1 Samples.receiver1)))
  = Return (inl "amqp.annotation.x-opt-offset > '4096'").
Proof.
  assert (H : Receiver.on_message Samples.message1 Samples.receiver1 =
    (Return Samples.event1, snd (Receiver.on_message Samples.message1 Samples.receiver1)))
    by reflexivity.
  split; [exact H|].
  destruct (selector_follows_last_event (Offset.init (Offset.OffStr (lit "-1")) None)
              _ _ _ _ H) as (_ & Hsel).
  rewrite Hsel. reflexivity.
Defined.

(** ** PartitionPump: what the methods do beyond the statements above *)

Module PumpBehaviour.

Import PartitionPump.

Section Behaviour.

Variable behaviour : list Call -> Call -> option Exn.
Variable hook_status : list Call -> Call -> option string.

(** Run the monad's plumbing, the calls included. *)
Ltac go :=
  cbv [bind try_except get modify ret raise on_pump processor_call context_attr
       set_pump_status process_error_async set_partition_context set_processor
       set_status call own_hook event_processor];
  cbn [pump calls instances host lease pump_status partition_context processor fst snd].

(** Follow a run through every answer of the calls it makes. *)
Ltac every_answer :=
  repeat first
    [ progress go
    | match goal with
      | |- context [decide ?P] => destruct (decide P)
      | |- context [match hook_status ?cs ?c with _ => _ end] =>
          destruct (hook_status cs c) eqn:?
      | |- context [match behaviour ?cs ?c with _ => _ end] =>
          destruct (behaviour cs c) eqn:?
      end ].

(** Take a computation apart along its binds, handlers and cases. *)
Ltac along bind_rule try_rule leaf :=
  repeat first
    [ leaf | apply bind_rule | apply try_rule
    | match goal with
      | |- _ (match ?x with _ => _ end) => destruct x
      | |- forall _, _ => intro
      end ].

Ltac appended :=
  cbn [snd];
  erewrite PumpProperties.made_after_calls
    by (cbn [calls]; rewrite <- ?app_assoc; reflexivity).

(** *** close_async *)

(** All that [close_async] assigns is the status. *)
Lemma close_async_pump (reason : string) :
  assigns_status_only (close_async behaviour hook_status reason).
Proof.
  intros [[h l st [ctx|] [p|]] cs n]; unfold close_async, same_but_status;
    every_answer; repeat split.
Qed.

(** X15: [close_async] assigns nothing but the status: however it ends, the
    pump still holds the host, the lease, the context and the processor it
    held before. *)
Theorem close_keeps_processor_and_context (s : State) (reason : string) :
  let s' := snd (close_async behaviour hook_status reason s) in
  processor (pump s') = processor (pump s) /\
  partition_context (pump s') = partition_context (pump s) /\
  lease (pump s') = lease (pump s) /\
  host (pump s') = host (pump s).
Proof.
  cbv zeta. destruct (close_async_pump reason s) as (Hh & Hl & Hc & Hp).
  repeat split; assumption.
Qed.

(** On a pump that holds a processor and a context, a [close_async] whose
    closing hook returns goes on to the processor's close hook. *)
Lemma close_async_opened_calls (s : State) (p : ProcessorRef) (ctx : PartitionContext)
    (reason : string) :
  processor (pump s) = Some p ->
  partition_context (pump s) = Some ctx ->
  behaviour (calls s) (OnClosing reason) = None ->
  exists rest,
    made_after s (snd (close_async behaviour hook_status reason s)) =
    OnClosing reason :: ProcessorClose p (Some ctx) reason :: rest.
Proof.
  intros Hp Hc Hclosing.
  destruct s as [[h l st pc pr] cs n]. cbn in Hp, Hc, Hclosing. subst pr pc.
  unfold close_async. every_answer; try congruence; appended; eexists; reflexivity.
Qed.

(** X16: closing is not remembered: on a pump that holds a processor and a
    context, a second [close_async] calls the processor's close hook again,
    however the first one ended, provided the closing hook returns. *)
Theorem close_twice_closes_processor_twice (s : State) (p : ProcessorRef)
    (ctx : PartitionContext) (reason1 reason2 : string) :
  processor (pump s) = Some p ->
  partition_context (pump s) = Some ctx ->
  let s1 := snd (close_async behaviour hook_status reason1 s) in
  behaviour (calls s1) (OnClosing reason2) = None ->
  ProcessorClose p (Some ctx) reason2 ∈
    made_after s1 (snd (close_async behaviour hook_status reason2 s1)).
Proof.
  intros Hp Hc s1 Hclosing.
  destruct (close_async_pump reason1 s) as (_ & _ & Hc1 & Hp1).
  fold s1 in Hc1, Hp1. rewrite Hp in Hp1. rewrite Hc in Hc1.
  destruct (close_async_opened_calls s1 p ctx reason2 Hp1 Hc1 Hclosing) as [rest ->].
  set_solver.
Qed.

(** X17: the error of a closing step is reported once and raised again: on a
    pump that holds a processor and a context, when the closing hook raises,
    or it returns and the processor's close hook raises, and the error hook
    returns, [close_async] raises that same error after exactly one call to
    the error hook with it, and calls nothing more. *)
Theorem close_reports_and_reraises (s : State) (p : ProcessorRef) (ctx : PartitionContext)
    (reason : string) (err : Exn) :
  processor (pump s) = Some p ->
  partition_context (pump s) = Some ctx ->
  let s' := snd (close_async behaviour hook_status reason s) in
  let report := ProcessorProcessError p (Some ctx) err in
  (behaviour (calls s) (OnClosing reason) = Some err ->
   behaviour (calls s ++ [OnClosing reason]) report = None ->
   fst (close_async behaviour hook_status reason s) = Raise err /\
   made_after s s' = [OnClosing reason; report]) /\
  (behaviour (calls s) (OnClosing reason) = None ->
   behaviour (calls s ++ [OnClosing reason]) (ProcessorClose p (Some ctx) reason) = Some err ->
   behaviour (calls s ++ [OnClosing reason; ProcessorClose p (Some ctx) reason]) report
     = None ->
   fst (close_async behaviour hook_status reason s) = Raise err /\
   made_after s s' = [OnClosing reason; ProcessorClose p (Some ctx) reason; report]).
Proof.
  intros Hp Hc s' report. subst s' report.
  destruct s as [[h l st pc pr] cs n]. cbn in Hp, Hc. subst pr pc. cbn [calls].
  unfold close_async. split.
  - intros Hclosing Hreport.
    go; destruct (hook_status cs (OnClosing reason)); go; rewrite Hclosing; go;
      rewrite Hreport; go; (split; [reflexivity|]); appended; reflexivity.
  - intros Hclosing Hclosed Hreport.
    go; destruct (hook_status cs (OnClosing reason)); go; rewrite Hclosing; go;
      rewrite Hclosed; go; rewrite <- app_assoc; cbn [app]; rewrite Hreport; go;
      (split; [reflexivity|]); appended; reflexivity.
Qed.

(** X18: on a pump without a processor, what the closing hook raises is
    lost: [close_async] raises the AttributeError of the missing error hook
    instead, having called the closing hook only, and the status stays
    Closing, or what the closing hook made of it. *)
Theorem close_without_processor_masks_error (s : State) (reason : string) (err : Exn) :
  processor (pump s) = None ->
  behaviour (calls s) (OnClosing reason) = Some err ->
  let s' := snd (close_async behaviour hook_status reason s) in
  fst (close_async behaviour hook_status reason s) = Raise (AttributeError "process_error_async") /\
  made_after s s' = [OnClosing reason] /\
  pump_status (pump s') = default "Closing" (hook_status (calls s) (OnClosing reason)).
Proof.
  intros Hp Hclosing s'. subst s'.
  destruct s as [[h l st pc pr] cs n]. cbn in Hp, Hclosing. subst pr. cbn [calls].
  unfold close_async.
  go; destruct (hook_status cs (OnClosing reason)); go; rewrite Hclosing; go;
    (split; [reflexivity|]); (split; [|reflexivity]); appended; reflexivity.
Qed.

(** X19: a failed lease release is raised without being reported: on a pump
    that holds a processor and a context, with reason LeaseLost and both
    closing hooks returning, when [release_lease_async] raises,
    [close_async] raises that error, the error hook is not called, and the
    status stays Closing, or what the closing hook made of it. *)
Theorem close_release_failure_is_not_reported (s : State) (p : ProcessorRef)
    (ctx : PartitionContext) (err : Exn) :
  processor (pump s) = Some p ->
  partition_context (pump s) = Some ctx ->
  behaviour (calls s) (OnClosing "LeaseLost") = None ->
  behaviour (calls s ++ [OnClosing "LeaseLost"]) (ProcessorClose p (Some ctx) "LeaseLost")
    = None ->
  behaviour (calls s ++ [OnClosing "LeaseLost"; ProcessorClose p (Some ctx) "LeaseLost"])
            (ReleaseLease (context_lease ctx)) = Some err ->
  let s' := snd (close_async behaviour hook_status "LeaseLost" s) in
  fst (close_async behaviour hook_status "LeaseLost" s) = Raise err /\
  made_after s s' = [OnClosing "LeaseLost"; ProcessorClose p (Some ctx) "LeaseLost";
                     ReleaseLease (context_lease ctx)] /\
  pump_status (pump s') =
    default "Closing" (hook_status (calls s) (OnClosing "LeaseLost")).
Proof.
  intros Hp Hc Hclosing Hclosed Hrelease s'. subst s'.
  destruct s as [[h l st pc pr] cs n]. cbn in Hp, Hc, Hclosing, Hclosed, Hrelease.
  subst pr pc. cbn [calls]. unfold close_async.
  go; destruct (hook_status cs (OnClosing "LeaseLost")); go; rewrite Hclosing; go;
    rewrite Hclosed; go; (case_decide; [|contradiction]); go;
    rewrite <- app_assoc; cbn [app]; rewrite Hrelease; go;
    (split; [reflexivity|]); (split; [|reflexivity]); appended; reflexivity.
Qed.

(** *** open_async *)

(** X20: when the factory and the processor's open hook return,
    [open_async] calls the factory, the open hook and then the pump's own
    open hook, and nothing else; it ends as the pump's open hook ends, with
    the new processor and a new context in place and the status still
    Opening, or what the pump's open hook made of it. *)
Theorem open_success_calls_on_open (s : State) :
  let p := instances s in
  let ctx := opened_context s in
  behaviour (calls s) EventProcessor = None ->
  behaviour (calls s ++ [EventProcessor]) (ProcessorOpen p (Some ctx)) = None ->
  let s1 := snd (open_async behaviour hook_status s) in
  made_after s s1 = [EventProcessor; ProcessorOpen p (Some ctx); OnOpen] /\
  fst (open_async behaviour hook_status s) =
    match behaviour (calls s ++ [EventProcessor; ProcessorOpen p (Some ctx)]) OnOpen with
    | None => Return tt
    | Some err => Raise err
    end /\
  pump_status (pump s1) =
    default "Opening"
      (hook_status (calls s ++ [EventProcessor; ProcessorOpen p (Some ctx)]) OnOpen) /\
  processor (pump s1) = Some p /\
  partition_context (pump s1) = Some ctx.
Proof.
  intros p ctx Hfactory Hopen s1. subst s1 p ctx.
  destruct s as [[h l st pc pr] cs n].
  cbn [calls instances] in *. unfold opened_context in *. cbn [pump host lease] in *.
  unfold open_async. go. rewrite Hfactory. go. rewrite Hopen. go.
  case_decide; [|contradiction]. go.
  rewrite <- app_assoc. cbn [app].
  destruct (hook_status (cs ++ [EventProcessor; ProcessorOpen n _]) OnOpen); go;
    destruct (behaviour (cs ++ [EventProcessor; ProcessorOpen n _]) OnOpen); go;
    (split; [appended; reflexivity|]); repeat split.
Qed.

(** X21: when the factory raises, [open_async] raises that error after the
    factory call alone: the error hook is not called and the status is left
    at Opening, not OpenFailed; the new context is already in place, and the
    pump holds the processor it held before, if it held one. *)
Theorem open_factory_failure (s : State) (err : Exn) :
  behaviour (calls s) EventProcessor = Some err ->
  let s1 := snd (open_async behaviour hook_status s) in
  fst (open_async behaviour hook_status s) = Raise err /\
  made_after s s1 = [EventProcessor] /\
  pump_status (pump s1) = "Opening" /\
  processor (pump s1) = processor (pump s) /\
  partition_context (pump s1) = Some (opened_context s).
Proof.
  intros Hfactory s1. subst s1.
  destruct s as [[h l st pc pr] cs n]. cbn [calls] in Hfactory.
  unfold opened_context. cbn [pump host lease processor].
  unfold open_async. go. rewrite Hfactory. go.
  split; [reflexivity|]. split; [appended; reflexivity|]. repeat split.
Qed.

(** However [open_async] ends: the context it installs, the status it
    leaves when its last call is not the pump's open hook, and the status it
    leaves when it is. *)
Lemma open_async_outcome (s : State) :
  let s1 := snd (open_async behaviour hook_status s) in
  partition_context (pump s1) = Some (opened_context s) /\
  lease (pump s1) = lease (pump s) /\
  (last (made_after s s1) <> Some OnOpen ->
   (pump_status (pump s1) = "Opening" \/ pump_status (pump s1) = "OpenFailed") /\
   (pump_status (pump s1) = "OpenFailed" ->
    processor (pump s1) = None /\ fst (open_async behaviour hook_status s) = Return tt)) /\
  (last (made_after s s1) = Some OnOpen ->
   exists before,
     calls s1 = before ++ [OnOpen] /\
     pump_status (pump s1) = default "Opening" (hook_status before OnOpen)).
Proof.
  cbv zeta. destruct s as [[h l st pc pr] cs n].
  unfold opened_context. cbn [pump host lease].
  unfold open_async. every_answer; try discriminate; try contradiction; appended;
    (split; [reflexivity|]); (split; [reflexivity|]);
    cbn [app last]; split; intros Hlast; try discriminate Hlast; try contradiction;
    try (split; [first [left; reflexivity | right; reflexivity]|];
         intros; repeat split; discriminate);
    eexists; (split; [reflexivity|]);
    match goal with H : hook_status _ OnOpen = _ |- _ => rewrite H end; reflexivity.
Qed.

(** X22: however [open_async] ends, it leaves a new context made from the
    lease the pump was built with.  When its last call is not the pump's
    own open hook, the status is Opening or OpenFailed, and OpenFailed
    comes only with a normal return and without a processor.  The pump's
    open hook, when called, is the last call made, and the status is then the
    one that hook sets, or Opening when the hook sets none. *)
Theorem open_status_and_context (s : State) :
  let s1 := snd (open_async behaviour hook_status s) in
  partition_context (pump s1) = Some (opened_context s) /\
  (last (made_after s s1) <> Some OnOpen ->
   (pump_status (pump s1) = "Opening" \/ pump_status (pump s1) = "OpenFailed") /\
   (pump_status (pump s1) = "OpenFailed" ->
    processor (pump s1) = None /\ fst (open_async behaviour hook_status s) = Return tt)) /\
  (last (made_after s s1) = Some OnOpen ->
   exists before,
     calls s1 = before ++ [OnOpen] /\
     pump_status (pump s1) = default "Opening" (hook_status before OnOpen)).
Proof.
  destruct (open_async_outcome s) as (Hctx & _ & Hown & Hhook).
  split; [exact Hctx|]. split; [exact Hown|exact Hhook].
Qed.

(** The status [close_async] leaves, by the way it ends. *)
Lemma close_async_status (s : State) (reason : string) :
  pump_status (pump (snd (close_async behaviour hook_status reason s))) =
  match fst (close_async behaviour hook_status reason s) with
  | Return _ => "Closed"
  | Raise _ => default "Closing" (hook_status (calls s) (OnClosing reason))
  end.
Proof.
  destruct s as [[h l st [ctx|] [p|]] cs n]; unfold close_async; cbn [calls];
    every_answer; reflexivity.
Qed.

(** *** is_closing and set_lease *)

(** X23: [is_closing] answers True after a [close_async] that returned, and
    after one that raised it answers for the status the closing hook set,
    True when the hook set none.  After an [open_async] whose last call was
    not the pump's open hook it answers False; after one whose last call was,
    it answers for the status that hook set, False when the hook set none. *)
Theorem is_closing_after_close_and_open (s : State) (reason : string) :
  let s1 := snd (close_async behaviour hook_status reason s) in
  let s2 := snd (open_async behaviour hook_status s) in
  (fst (close_async behaviour hook_status reason s) = Return tt ->
   fst (is_closing s1) = Return true) /\
  (forall err, fst (close_async behaviour hook_status reason s) = Raise err ->
   fst (is_closing s1) =
   Return (from_option closing_answer true (hook_status (calls s) (OnClosing reason)))) /\
  (last (made_after s s2) <> Some OnOpen -> fst (is_closing s2) = Return false) /\
  (last (made_after s s2) = Some OnOpen ->
   exists before,
     calls s2 = before ++ [OnOpen] /\
     fst (is_closing s2) =
     Return (from_option closing_answer false (hook_status before OnOpen))).
Proof.
  cbv zeta. unfold is_closing, bind, get, ret. cbn [fst].
  pose proof (close_async_status s reason) as Hclose.
  destruct (open_async_outcome s) as (_ & _ & Hown & Hhook).
  split; [|split; [|split]].
  - intros Hr. rewrite Hr in Hclose. rewrite Hclose. reflexivity.
  - intros err Hr. rewrite Hr in Hclose. rewrite Hclose.
    destruct (hook_status (calls s) (OnClosing reason)); reflexivity.
  - intros Hmade. destruct (Hown Hmade) as ([-> | ->] & _); reflexivity.
  - intros Hmade. destruct (Hhook Hmade) as (before & Hcalls & ->).
    exists before. split; [exact Hcalls|].
    destruct (hook_status before OnOpen); reflexivity.
Qed.

(** X24: [set_lease] replaces the lease of the context and not the lease of
    the pump.  On a pump that holds a processor and a context, a
    [close_async] with reason LeaseLost after it releases the new lease
    (both closing hooks returning); an [open_async] after it makes its
    context from the lease the pump was built with; and without a context
    [set_lease] changes nothing. *)
Theorem set_lease_reaches_the_context_only (s : State) (new_lease : Lease) :
  let s1 := snd (set_lease new_lease s) in
  (partition_context (pump s) = None -> s1 = s) /\
  partition_context (pump (snd (open_async behaviour hook_status s1))) = Some (opened_context s) /\
  (forall p ctx,
     processor (pump s) = Some p ->
     partition_context (pump s) = Some ctx ->
     let ctx1 := set_context_lease new_lease ctx in
     behaviour (calls s) (OnClosing "LeaseLost") = None ->
     behaviour (calls s ++ [OnClosing "LeaseLost"]) (ProcessorClose p (Some ctx1) "LeaseLost")
       = None ->
     released (made_after s1 (snd (close_async behaviour hook_status "LeaseLost" s1))) =
       [Some new_lease]).
Proof.
  cbv zeta. split; [|split].
  - intros Hc. destruct s as [[h l st pc pr] cs n]. cbn in Hc. subst pc. reflexivity.
  - destruct (open_async_outcome (snd (set_lease new_lease s))) as (-> & _).
    destruct s as [[h l st [ctx|] pr] cs n]; reflexivity.
  - intros p ctx Hp Hc Hclosing Hclosed.
    destruct s as [[h l st pc pr] cs n]. cbn in Hp, Hc, Hclosing, Hclosed. subst pr pc.
    unfold set_lease. go. unfold close_async.
    every_answer; try congruence; try contradiction; appended; reflexivity.
Qed.

(** *** process_events_async *)

(** X25: on a pump without a processor, a batch whose last element is an
    event makes [process_events_async] raise the AttributeError of the
    missing error hook, without any call. *)
Theorem process_events_without_processor (s : State)
    (events : list (option EventData.t)) (event_data : EventData.t) :
  processor (pump s) = None ->
  last events = Some (Some event_data) ->
  fst (process_events_async behaviour events s) =
    Raise (AttributeError "process_error_async") /\
  calls (snd (process_events_async behaviour events s)) = calls s.
Proof.
  intros Hp Hlast.
  destruct events as [|e0 events']; [discriminate Hlast|].
  destruct s as [[h l st pc pr] cs n]. cbn in Hp. subst pr.
  unfold process_events_async. rewrite Hlast. go.
  destruct pc; go; split; reflexivity.
Qed.

(** X26: [process_events_async] assigns nothing but the context: however it
    ends, the status, the processor, the lease and the host are as
    before. *)
Theorem process_events_keeps_status_and_processor (s : State)
    (events : list (option EventData.t)) :
  let s' := snd (process_events_async behaviour events s) in
  pump_status (pump s') = pump_status (pump s) /\
  processor (pump s') = processor (pump s) /\
  lease (pump s') = lease (pump s) /\
  host (pump s') = host (pump s).
Proof.
  cbv zeta. destruct s as [[h l st pc pr] cs n].
  unfold process_events_async.
  destruct events as [|e0 events']; [repeat split|].
  destruct (last (e0 :: events')) as [[event_data|]|]; go; [|repeat split..].
  destruct pc as [ctx|]; go.
  - destruct pr as [p|]; go; [|repeat split].
    destruct (behaviour cs _) as [e|]; go; [|repeat split].
    destruct (behaviour _ (ProcessorProcessError p _ e)); repeat split.
  - destruct pr as [p|]; go; [|repeat split].
    destruct (behaviour cs _); repeat split.
Qed.

End Behaviour.

(** *** The statements at concrete inputs *)

Import Samples Inputs.

Lemma close_twice_closes_processor_twice_witness :
  processor (pump opened1) = Some 0%nat /\
  fst (close_async close_hook_raises sets_nothing "LeaseLost" opened1) = Raise (UserError 4) /\
  ProcessorClose 0%nat (Some context1) "Shutdown" ∈
    made_after (snd (close_async close_hook_raises sets_nothing "LeaseLost" opened1))
      (snd (close_async close_hook_raises sets_nothing "Shutdown"
              (snd (close_async close_hook_raises sets_nothing "LeaseLost" opened1)))).
Proof.
  split; [reflexivity|]. split; [reflexivity|].
  exact (close_twice_closes_processor_twice close_hook_raises sets_nothing opened1 0%nat context1
           "LeaseLost" "Shutdown" eq_refl eq_refl eq_refl).
Defined.

Lemma close_reports_and_reraises_witness :
  processor (pump opened1) = Some 0%nat /\
  partition_context (pump opened1) = Some context1 /\
  fst (close_async close_hook_raises sets_nothing "Shutdown" opened1) = Raise (UserError 4) /\
  made_after opened1 (snd (close_async close_hook_raises sets_nothing "Shutdown" opened1)) =
    [OnClosing "Shutdown"; ProcessorClose 0%nat (Some context1) "Shutdown";
     ProcessorProcessError 0%nat (Some context1) (UserError 4)].
Proof.
  split; [reflexivity|]. split; [reflexivity|].
  destruct (close_reports_and_reraises close_hook_raises sets_nothing opened1 0%nat context1 "Shutdown"
              (UserError 4) eq_refl eq_refl) as (_ & Hclose).
  exact (Hclose eq_refl eq_refl eq_refl).
Defined.

Lemma close_without_processor_masks_error_witness :
  processor (pump fresh1) = None /\
  closing_hook_raises (calls fresh1) (OnClosing "Shutdown") = Some (UserError 1) /\
  fst (close_async closing_hook_raises sets_nothing "Shutdown" fresh1) =
    Raise (AttributeError "process_error_async").
Proof.
  split; [reflexivity|]. split; [reflexivity|].
  exact (proj1 (close_without_processor_masks_error closing_hook_raises sets_nothing fresh1 "Shutdown"
                  (UserError 1) eq_refl eq_refl)).
Defined.

Lemma close_release_failure_is_not_reported_witness :
  processor (pump opened1) = Some 0%nat /\
  partition_context (pump opened1) = Some context1 /\
  fst (close_async release_raises sets_nothing "LeaseLost" opened1) = Raise (UserError 5) /\
  pump_status (pump (snd (close_async release_raises sets_nothing "LeaseLost" opened1))) = "Closing".
Proof.
  split; [reflexivity|]. split; [reflexivity|].
  destruct (close_release_failure_is_not_reported release_raises sets_nothing opened1 0%nat context1
              (UserError 5) eq_refl eq_refl eq_refl eq_refl eq_refl)
    as (Hfst & _ & Hstatus).
  split; [exact Hfst|exact Hstatus].
Defined.

Lemma open_success_calls_on_open_witness :
  all_return (calls fresh1) EventProcessor = None /\
  made_after fresh1 (snd (open_async all_return sets_nothing fresh1)) =
    [EventProcessor; ProcessorOpen 0%nat (Some context1); OnOpen] /\
  pump_status (pump (snd (open_async all_return sets_nothing fresh1))) = "Opening".
Proof.
  split; [reflexivity|].
  destruct (open_success_calls_on_open all_return sets_nothing fresh1 eq_refl eq_refl)
    as (Hmade & _ & Hstatus & _).
  split; [exact Hmade|exact Hstatus].
Defined.

Lemma open_factory_failure_witness :
  factory_raises (calls opened1) EventProcessor = Some (UserError 6) /\
  fst (open_async factory_raises sets_nothing opened1) = Raise (UserError 6) /\
  processor (pump (snd (open_async factory_raises sets_nothing opened1))) = Some 0%nat.
Proof.
  split; [reflexivity|].
  destruct (open_factory_failure factory_raises sets_nothing opened1 (UserError 6) eq_refl)
    as (Hfst & _ & _ & Hproc & _).
  split; [exact Hfst|exact Hproc].
Defined.

(** A closing hook that sets the status Errored and raises: [close_async]
    ends by raising with that status, and [is_closing] answers False. *)
Example close_after_hook_set_status :
  let r := close_async closing_hook_raises closing_hook_sets_errored "Shutdown" opened1 in
  fst r = Raise (UserError 1) /\
  pump_status (pump (snd r)) = "Errored" /\
  fst (is_closing (snd r)) = Return false.
Proof. repeat split. Qed.

(** An open hook of the pump that sets the status Opened: [open_async]
    returns with that status. *)
Example open_with_hook_setting_opened :
  let r := open_async all_return open_hook_sets_opened fresh1 in
  fst r = Return tt /\
  pump_status (pump (snd r)) = "Opened" /\
  last (made_after fresh1 (snd r)) = Some OnOpen.
Proof. repeat split. Qed.

Lemma process_events_without_processor_witness :
  processor (pump fresh1) = None /\
  last [Some event1] = Some (Some event1) /\
  fst (process_events_async all_return [Some event1] fresh1) =
    Raise (AttributeError "process_error_async").
Proof.
  split; [reflexivity|]. split; [reflexivity|].
  exact (proj1 (process_events_without_processor all_return fresh1 [Some event1] event1
                  eq_refl eq_refl)).
Defined.

End PumpBehaviour.
